(** * students: a roster kept in an embedded database (zad/ind/norm.py)

    The program is a thin layer over two collaborators, an embedded SQL
    engine and an argument parser.  The development embeds
    - the values the Python code handles (strings, integers, [None], lists),
    - the four schema objects of [create_db] with the constraints their
      DDL declares, and the SQL statements of the source as state
      transformers that may raise,
    - the six functions of the module, in the order of the source. *)

From stdpp Require Import gmap strings list fin_maps pretty.
From Stdlib Require Import ZArith Ascii.

Local Open Scope Z_scope.

(** ** Python values *)

(** A Python [str] is a sequence of code points.  It is kept here as its
    UTF-8 encoding; [py_len] is [len]: it skips the continuation bytes
    (10xxxxxx) of a multi-byte code point. *)
Definition is_continuation (c : ascii) : bool :=
  let n := Ascii.N_of_ascii c in ((128 <=? n) && (n <? 192))%N.

Fixpoint py_len (s : string) : nat :=
  match s with
  | EmptyString => 0%nat
  | String c r => if is_continuation c then py_len r else S (py_len r)
  end.

(** [str(n)] for an [int]. *)
Definition py_str (z : Z) : string := pretty z.

(** [sep.join(l)]. *)
Fixpoint py_join (sep : string) (l : list string) : string :=
  match l with
  | [] => ""
  | [x] => x
  | x :: r => x +:+ sep +:+ py_join sep r
  end.

Fixpoint spaces (n : nat) : string :=
  match n with
  | O => ""
  | S k => String " " (spaces k)
  end.

(** The format specifications of the source are all of the shape
    [{:<w}], [{:>w}] or [{:^w}]: fill with spaces up to [w] code points,
    never truncate.  Centring puts the smaller half of the padding on the
    left. *)
Inductive align := AlignLeft | AlignRight | AlignCenter.

Definition py_format (a : align) (width : nat) (s : string) : string :=
  let pad := (width - py_len s)%nat in
  match a with
  | AlignLeft => s +:+ spaces pad
  | AlignRight => spaces pad +:+ s
  | AlignCenter => spaces (pad / 2) +:+ s +:+ spaces (pad - pad / 2)
  end.

(** [enumerate(l, start)]. *)
Fixpoint enumerate {A} (l : list A) (start : Z) : list (Z * A) :=
  match l with
  | [] => []
  | x :: r => (start, x) :: enumerate r (start + 1)
  end.

(** The scalar values that reach the functions of the module as [group]:
    [add_student] is annotated with [str], [select_by_grade] with [int],
    and [main] passes what argparse produced ([None], an [int], a [str]). *)
Inductive pyval :=
| PyNone
| PyInt (z : Z)
| PyStr (s : string).

(** The values that reach [add_student] as [grade]: the annotation says
    [list], [main] passes the [str] of the command line. *)
Inductive grade_value :=
| GradeStr (s : string)
| GradeList (l : list Z).

(** [int(s)], as argparse calls it for [type=int], on a text of ASCII
    characters: white space around, an optional sign, decimal digits,
    single underscores between digits.  The white space [int] skips in
    such a text is that of C: the tab, the line feed, the vertical tab,
    the form feed, the carriage return and the space.  The separators
    28 to 31, which [str.isspace] counts in, are not skipped. *)
Definition py_isspace (c : ascii) : bool :=
  let n := Ascii.N_of_ascii c in
  (((9 <=? n) && (n <=? 13)) || (n =? 32))%N.

Fixpoint lstrip (s : string) : string :=
  match s with
  | String c r => if py_isspace c then lstrip r else s
  | EmptyString => s
  end.

Definition strip (s : string) : string :=
  String.rev (lstrip (String.rev (lstrip s))).

Definition digit_value (c : ascii) : option Z :=
  Z.of_nat <$> Ascii.is_nat c.

Fixpoint digits_value (acc : Z) (after_digit : bool) (s : string) : option Z :=
  match s with
  | EmptyString => if after_digit then Some acc else None
  | String c r =>
      match digit_value c with
      | Some d => digits_value (10 * acc + d) true r
      | None =>
          if bool_decide (c = "_"%char) && after_digit
          then digits_value acc false r
          else None
      end
  end.

Definition py_int (s : string) : option Z :=
  match strip s with
  | String "-" r => Z.opp <$> digits_value 0 false r
  | String "+" r => digits_value 0 false r
  | r => digits_value 0 false r
  end.

(** ** Exceptions and the state-and-error monad *)

Inductive constraint := NotNull | PrimaryKey | ForeignKey.

(** What argparse reports through [parser.error]: usage and the message on
    stderr, then [SystemExit(2)]. *)
Inductive usage_error :=
| InvalidIntValue (option_strings value : string)
| RequiredMissing (option_strings : list string).

Inductive exn :=
| CatalogException
| ConstraintException (c : constraint)
| ConversionException
| SequenceException
| AttributeError (attribute : string)
| ParserError (e : usage_error)
| ParserExit.

Inductive result (A : Type) :=
| Ok (a : A)
| Raise (e : exn).
Arguments Ok {A} a.
Arguments Raise {A} e.

(** A computation over a state [S]: the statements run so far stay in
    effect when a later one raises (every statement is its own
    transaction; the source opens none). *)
Definition M (S A : Type) : Type := S → result A * S.

Global Instance M_ret {S} : MRet (M S) := λ A a s, (Ok a, s).
Global Instance M_bind {S} : MBind (M S) := λ A B f m s,
  match m s with
  | (Ok a, s') => f a s'
  | (Raise e, s') => (Raise e, s')
  end.

Definition raise {S A} (e : exn) : M S A := λ s, (Raise e, s).
Definition get {S} : M S S := λ s, (Ok s, s).
Definition put {S} (s : S) : M S unit := λ _, (Ok tt, s).

(** [for x in l: body(x)]. *)
Fixpoint for_each {S A} (l : list A) (body : A → M S unit) : M S unit :=
  match l with
  | [] => mret tt
  | x :: r => body x;; for_each r body
  end.

(** ** The storage engine *)

(** A sequence created with [START 1]: [counter] is the value the next
    [nextval] returns, [last_value] what [currval] returns. *)
Record sequence := { counter : Z; last_value : option Z }.

(** groups (group_id INTEGER PRIMARY KEY, group_title TEXT NOT NULL) *)
Record group_row := { group_id : Z; group_title : string }.

(** students (student_id INTEGER PRIMARY KEY, student_name TEXT NOT NULL,
      group_id INTEGER NOT NULL, student_grade INT[] NOT NULL,
      FOREIGN KEY(group_id) REFERENCES groups(group_id));
    the column [group_id] of this table is [student_group_id]. *)
Record student_row := {
  student_id : Z;
  student_name : string;
  student_group_id : Z;
  student_grade : list Z
}.

(** The catalog of one database file; [None] is "does not exist". *)
Record database := {
  group_st : option sequence;
  student_st : option sequence;
  groups : option (list group_row);
  students : option (list student_row)
}.

Definition empty_database : database :=
  {| group_st := None; student_st := None; groups := None; students := None |}.

Global Instance group_row_eq_dec : EqDecision group_row.
Proof. solve_decision. Defined.
Global Instance student_row_eq_dec : EqDecision student_row.
Proof. solve_decision. Defined.
Global Instance sequence_eq_dec : EqDecision sequence.
Proof. solve_decision. Defined.
Global Instance database_eq_dec : EqDecision database.
Proof. solve_decision. Defined.

Abbreviation Db := (M database).

Definition INT32_MIN : Z := - 2 ^ 31.
Definition INT32_MAX : Z := 2 ^ 31 - 1.
Definition INT64_MIN : Z := - 2 ^ 63.
Definition INT64_MAX : Z := 2 ^ 63 - 1.

Definition in_int32 (z : Z) : bool := (INT32_MIN <=? z) && (z <=? INT32_MAX).

(** A value written to an INTEGER column is cast to 32 bits; the cast
    raises when the value does not fit. *)
Definition cast_integer (z : Z) : Db Z :=
  if in_int32 z then mret z else raise ConversionException.

Inductive sequence_name := GroupSt | StudentSt.

Definition get_sequence (n : sequence_name) (d : database) : option sequence :=
  match n with GroupSt => group_st d | StudentSt => student_st d end.

Definition set_sequence (n : sequence_name) (s : sequence) (d : database) : database :=
  match n with
  | GroupSt =>
      {| group_st := Some s; student_st := student_st d;
         groups := groups d; students := students d |}
  | StudentSt =>
      {| group_st := group_st d; student_st := Some s;
         groups := groups d; students := students d |}
  end.

Definition set_groups (gs : list group_row) (d : database) : database :=
  {| group_st := group_st d; student_st := student_st d;
     groups := Some gs; students := students d |}.

Definition set_students (ss : list student_row) (d : database) : database :=
  {| group_st := group_st d; student_st := student_st d;
     groups := groups d; students := Some ss |}.

(** CREATE SEQUENCE IF NOT EXISTS n START 1 *)
Definition create_sequence_if_not_exists (n : sequence_name) : Db unit :=
  d ← get;
  match get_sequence n d with
  | Some _ => mret tt
  | None => put (set_sequence n {| counter := 1; last_value := None |} d)
  end.

(** CREATE TABLE IF NOT EXISTS groups (...) *)
Definition create_groups_if_not_exists : Db unit :=
  d ← get;
  match groups d with
  | Some _ => mret tt
  | None => put (set_groups [] d)
  end.

(** CREATE TABLE IF NOT EXISTS students (... REFERENCES groups(group_id)):
    a new table needs the table it references. *)
Definition create_students_if_not_exists : Db unit :=
  d ← get;
  match students d with
  | Some _ => mret tt
  | None =>
      match groups d with
      | Some _ => put (set_students [] d)
      | None => raise CatalogException
      end
  end.

(** nextval('n'): the sequence steps, and stops at its maximum.  The step
    is kept here also when the statement that took the value fails; the
    statements below are about the rows, and about the values of a
    sequence in the calls that return. *)
Definition nextval (n : sequence_name) : Db Z :=
  d ← get;
  match get_sequence n d with
  | None => raise CatalogException
  | Some s =>
      if counter s <? INT64_MAX
      then put (set_sequence n {| counter := counter s + 1;
                                  last_value := Some (counter s) |} d);;
           mret (counter s)
      else raise SequenceException
  end.

(** currval('n') *)
Definition currval (n : sequence_name) : Db Z :=
  d ← get;
  match get_sequence n d with
  | None => raise CatalogException
  | Some s =>
      match last_value s with
      | Some v => mret v
      | None => raise SequenceException
      end
  end.

Definition table_groups : Db (list group_row) :=
  d ← get;
  match groups d with
  | Some gs => mret gs
  | None => raise CatalogException
  end.

Definition table_students : Db (list student_row) :=
  d ← get;
  match students d with
  | Some ss => mret ss
  | None => raise CatalogException
  end.

(** *** Parameter binding

    What the engine does with the value given for a [?]: it writes it to
    a TEXT column, it writes it to the INT[] column, it compares a TEXT
    column with it.  The conversions are the engine's; the repository
    fixes none of them. *)

(** A parameter written to a TEXT column; [None] is NULL, an [int] is
    written as its decimal text (the driver takes an [int] of up to 128
    bits). *)
Definition bind_text (v : pyval) : option string :=
  match v with
  | PyNone => None
  | PyInt z => Some (pretty z)
  | PyStr s => Some s
  end.

Fixpoint split_on (sep : ascii) (cur : string) (s : string) : list string :=
  match s with
  | EmptyString => [String.rev cur]
  | String c r =>
      if bool_decide (c = sep)
      then String.rev cur :: split_on sep "" r
      else split_on sep (String c cur) r
  end.

Fixpoint decimal_value (acc : Z) (after_digit : bool) (s : string) : option Z :=
  match s with
  | EmptyString => if after_digit then Some acc else None
  | String c r =>
      match digit_value c with
      | Some d => decimal_value (10 * acc + d) true r
      | None => None
      end
  end.

(** The integer a text denotes for the engine: decimal digits with an
    optional sign, white space around.  The engine reads further texts as
    integers (one with a fraction, which it rounds, is among them); they
    are not modelled, and the statements about integer parameters and
    about grades given as a text are about the decimal texts. *)
Definition text_to_integer (s : string) : option Z :=
  match strip s with
  | String "-" r => Z.opp <$> decimal_value 0 false r
  | String "+" r => decimal_value 0 false r
  | r => decimal_value 0 false r
  end.

Fixpoint all_some {A} (l : list (option A)) : option (list A) :=
  match l with
  | [] => Some []
  | Some x :: r => cons x <$> all_some r
  | None :: _ => None
  end.

(** The list a text denotes in the syntax of a list literal, as in
    "[4, 5, 5]". *)
Definition text_to_int_list (s : string) : option (list Z) :=
  match strip s with
  | String "[" r =>
      match String.rev r with
      | String "]" inner =>
          if bool_decide (strip inner = "") then Some []
          else all_some (text_to_integer <$> split_on "," "" (String.rev inner))
      | _ => None
      end
  | _ => None
  end.

(** A parameter written to the INT[] column: a list of integers of 32
    bits, or a text that denotes one in the syntax of a list of decimal
    texts.  (The elements the engine would round or read as NULL are not
    modelled: such a text is taken as refused.) *)
Definition int_list_of (v : grade_value) : option (list Z) :=
  match v with
  | GradeList l => if forallb in_int32 l then Some l else None
  | GradeStr s =>
      match text_to_int_list s with
      | Some l => if forallb in_int32 l then Some l else None
      | None => None
      end
  end.

Definition bind_int_list (v : grade_value) : Db (list Z) :=
  match int_list_of v with
  | Some l => mret l
  | None => raise ConversionException
  end.

(** The type the engine gives an [int] parameter: INTEGER when the
    value fits 32 bits, BIGINT when it fits 64, and a wider type beyond
    (the statements about integer parameters stay within 64 bits). *)
Inductive int_type := INTEGER | BIGINT | HUGEINT.

Definition in_int64 (z : Z) : bool := (INT64_MIN <=? z) && (z <=? INT64_MAX).
Definition in_int128 (z : Z) : bool := (- 2 ^ 127 <=? z) && (z <? 2 ^ 127).

Definition type_of_int (z : Z) : int_type :=
  if in_int32 z then INTEGER else if in_int64 z then BIGINT else HUGEINT.

Definition in_type (t : int_type) (z : Z) : bool :=
  match t with
  | INTEGER => in_int32 z
  | BIGINT => in_int64 z
  | HUGEINT => in_int128 z
  end.

(** CAST(text AS t): the integer the text denotes, when it is of the
    type. *)
Definition cast_text (t : int_type) (text : string) : option Z :=
  match text_to_integer text with
  | Some z => if in_type t z then Some z else None
  | None => None
  end.

(** [group_title = ?] on one row: [None] is NULL (no match).  Against a
    [str] it is equality of the two texts; against an [int] the text is
    cast to the type of the integer first, and a text that cannot be
    raises. *)
Definition title_equals (v : pyval) (title : string) : Db bool :=
  match v with
  | PyNone => mret false
  | PyStr s => mret (bool_decide (title = s))
  | PyInt z =>
      match cast_text (type_of_int z) title with
      | Some t => mret (bool_decide (t = z))
      | None => raise ConversionException
      end
  end.

(** The rows of [gs] that pass [WHERE group_title = ?]. *)
Fixpoint where_title (v : pyval) (gs : list group_row) : Db (list group_row) :=
  match gs with
  | [] => mret []
  | g :: r =>
      b ← title_equals v (group_title g);
      rest ← where_title v r;
      mret (if b : bool then g :: rest else rest)
  end.

(** SELECT group_id FROM groups WHERE group_title = ? *)
Definition select_group_id (group : pyval) : Db (list Z) :=
  gs ← table_groups;
  rows ← where_title group gs;
  mret (group_id <$> rows).

(** INSERT INTO groups VALUES (nextval('group_st'), ?) *)
Definition insert_into_groups (group : pyval) : Db unit :=
  gs ← table_groups;
  v ← nextval GroupSt;
  id ← cast_integer v;
  match bind_text group with
  | None => raise (ConstraintException NotNull)
  | Some title =>
      if bool_decide (id ∈ group_id <$> gs)
      then raise (ConstraintException PrimaryKey)
      else
        d ← get;
        put (set_groups (gs ++ [{| group_id := id; group_title := title |}]) d)
  end.

(** INSERT INTO students VALUES (nextval('student_st'), ?, ?, ?) *)
Definition insert_into_students
    (name : string) (group_id_ : Z) (grade : grade_value) : Db unit :=
  ss ← table_students;
  gs ← table_groups;
  v ← nextval StudentSt;
  id ← cast_integer v;
  gid ← cast_integer group_id_;
  marks ← bind_int_list grade;
  if bool_decide (id ∈ student_id <$> ss)
  then raise (ConstraintException PrimaryKey)
  else if bool_decide (gid ∈ group_id <$> gs)
  then
    d ← get;
    put (set_students
           (ss ++ [{| student_id := id; student_name := name;
                      student_group_id := gid; student_grade := marks |}]) d)
  else raise (ConstraintException ForeignKey).

(** students INNER JOIN groups ON groups.group_id = students.group_id,
    projected on (student_name, group_title, student_grade). *)
Definition inner_join (ss : list student_row) (gs : list group_row)
  : list (string * string * list Z) :=
  s ← ss;
  g ← filter (λ g, group_id g = student_group_id s) gs;
  [(student_name s, group_title g, student_grade s)].

(** SELECT ... FROM students INNER JOIN groups ON ... *)
Definition select_join : Db (list (string * string * list Z)) :=
  ss ← table_students;
  gs ← table_groups;
  mret (inner_join ss gs).

(** SELECT ... FROM students INNER JOIN groups ON ...
    WHERE groups.group_title = ? *)
Definition select_join_where (group : pyval)
  : Db (list (string * string * list Z)) :=
  ss ← table_students;
  gs ← table_groups;
  matching ← where_title group gs;
  mret (inner_join ss matching).

(** ** The module *)

(** The files the program can open, by path, and what it has printed. *)
Record world := {
  files : gmap string database;
  stdout : list string
}.

Abbreviation IO := (M world).

Definition print (text : string) : IO unit := λ w,
  (Ok tt, {| files := files w; stdout := stdout w ++ [text] |}).

(** [conn = duckdb.connect(str(database_path)) ... conn.close()]: the file
    is opened, or created with nothing in it; what the statements of
    [body] did to it is in the file afterwards, also when one of them
    raised.  The path is taken as the name of a file the engine can open
    or create, and each text as the name of a file of its own: a
    directory that is missing, a file that is no database and the name
    ":memory:" are outside of the model. *)
Definition with_connection {A} (database_path : string) (body : Db A) : IO A :=
  λ w,
    let d := default empty_database (files w !! database_path) in
    let '(r, d') := body d in
    (r, {| files := <[database_path := d']> (files w); stdout := stdout w |}).

(** [cursor.fetchone()] *)
Definition fetchone {A} (rows : list A) : option A := head rows.

(** The dictionaries [select_all] and [select_by_grade] build always have
    the three keys, so the defaults of [student.get] are never used. *)
Record student := { name : string; group : string; grade : list Z }.

Global Instance student_eq_dec : EqDecision student.
Proof. solve_decision. Defined.

(** ['-' * n] *)
Fixpoint dashes (n : nat) : string :=
  match n with
  | O => ""
  | S k => String "-" (dashes k)
  end.

Definition table_line : string :=
  "+-" +:+ dashes 4 +:+ "-+-" +:+ dashes 30 +:+ "-+-" +:+ dashes 20
       +:+ "-+-" +:+ dashes 15 +:+ "-+".

Definition table_head : string :=
  "| " +:+ py_format AlignCenter 4 "№"
       +:+ " | " +:+ py_format AlignCenter 30 "Ф.И.О."
       +:+ " | " +:+ py_format AlignCenter 20 "Группа"
       +:+ " | " +:+ py_format AlignCenter 15 "Успеваемость" +:+ " |".

Definition table_row (idx : Z) (s : student) : string :=
  "| " +:+ py_format AlignRight 4 (py_str idx)
       +:+ " | " +:+ py_format AlignLeft 30 (name s)
       +:+ " | " +:+ py_format AlignLeft 20 (group s)
       +:+ " | " +:+ py_format AlignRight 15 (py_join ", " (py_str <$> grade s))
       +:+ " |".

Definition display_students (staff : list student) : IO unit :=
  match staff with
  | _ :: _ =>
      print table_line;;
      print table_head;;
      print table_line;;
      for_each (enumerate staff 1) (λ '(idx, s), print (table_row idx s));;
      print table_line
  | [] => print "Список студентов пуст."
  end.

Definition create_db (database_path : string) : IO unit :=
  with_connection database_path (
    create_sequence_if_not_exists GroupSt;;
    create_sequence_if_not_exists StudentSt;;
    create_groups_if_not_exists;;
    create_students_if_not_exists).

(** Lines 105-128 of [add_student]: the identifier of the group. *)
Definition resolve_group (group : pyval) : Db Z :=
  rows ← select_group_id group;
  match fetchone rows with
  | None =>
      insert_into_groups group;;
      currval GroupSt
  | Some row => mret row
  end.

Definition add_student
    (database_path : string) (name : string) (group : pyval)
    (grade : grade_value) : IO unit :=
  with_connection database_path (
    group_id ← resolve_group group;
    insert_into_students name group_id grade).

Definition to_student (row : string * string * list Z) : student :=
  {| name := row.1.1; group := row.1.2; grade := row.2 |}.

Definition select_all (database_path : string) : IO (list student) :=
  with_connection database_path (
    rows ← select_join;
    mret (to_student <$> rows)).

Definition select_by_grade (database_path : string) (group : pyval)
  : IO (list student) :=
  with_connection database_path (
    rows ← select_join_where group;
    mret (to_student <$> rows)).

(** *** The command line

    A command line is taken as argparse sees it once it has split it: the
    subcommand, and for each option of that subcommand the text given for
    it, if any. *)
Inductive command_line :=
| NoCommand
| Version
| Add (db name group grade : option string)
| Display (db : option string)
| Select (db select : option string).

(** The namespace [parse_args] returns, by the attributes it has.  [--db]
    belongs to [file_parser], the parent of the three subparsers only:
    without a subcommand the namespace has [command] and nothing else. *)
Inductive namespace :=
| NsNoCommand
| NsAdd (db name : string) (group : pyval) (grade : string)
| NsDisplay (db : string)
| NsSelect (db select : string).

Definition command (args : namespace) : option string :=
  match args with
  | NsNoCommand => None
  | NsAdd _ _ _ _ => Some "add"
  | NsDisplay _ => Some "display"
  | NsSelect _ _ => Some "select"
  end.

(** [args.db], [args.name], [args.group], [args.grade], [args.select] *)
Definition args_db (args : namespace) : IO string :=
  match args with
  | NsNoCommand => raise (AttributeError "db")
  | NsAdd db _ _ _ | NsDisplay db | NsSelect db _ => mret db
  end.

Definition args_name (args : namespace) : IO string :=
  match args with
  | NsAdd _ name _ _ => mret name
  | _ => raise (AttributeError "name")
  end.

Definition args_group (args : namespace) : IO pyval :=
  match args with
  | NsAdd _ _ group _ => mret group
  | _ => raise (AttributeError "group")
  end.

Definition args_grade (args : namespace) : IO string :=
  match args with
  | NsAdd _ _ _ grade => mret grade
  | _ => raise (AttributeError "grade")
  end.

Definition args_select (args : namespace) : IO string :=
  match args with
  | NsSelect _ select => mret select
  | _ => raise (AttributeError "select")
  end.

(** [str(Path.cwd() / "students.db")]: the working directory is an
    absolute path, with no slash at its end unless it is the root. *)
Definition default_db (cwd : string) : string :=
  if bool_decide (cwd = "/") then "/students.db" else cwd +:+ "/students.db".

(** [-g/--group] has [type=int] and no [required]; [-n/--name] and
    [-gr/--grade] have [required=True] and no [type]. *)
Definition convert_group (group : option string) : IO pyval :=
  match group with
  | None => mret PyNone
  | Some text =>
      match py_int text with
      | Some z => mret (PyInt z)
      | None => raise (ParserError (InvalidIntValue "-g/--group" text))
      end
  end.

Definition missing (option_strings : string) (value : option string)
  : list string :=
  match value with
  | Some _ => []
  | None => [option_strings]
  end.

Definition parse_args (cwd : string) (argv : command_line) : IO namespace :=
  match argv with
  | NoCommand => mret NsNoCommand
  | Version => print "students 0.1.0";; raise ParserExit
  | Add db name group grade =>
      group' ← convert_group group;
      match name, grade with
      | Some name', Some grade' =>
          mret (NsAdd (default (default_db cwd) db) name' group' grade')
      | _, _ =>
          raise (ParserError (RequiredMissing
                   (missing "-n/--name" name ++ missing "-gr/--grade" grade)))
      end
  | Display db => mret (NsDisplay (default (default_db cwd) db))
  | Select db select =>
      match select with
      | Some select' => mret (NsSelect (default (default_db cwd) db) select')
      | None => raise (ParserError (RequiredMissing ["-s/--select"]))
      end
  end.

Definition main (cwd : string) (command_line : command_line) : IO unit :=
  args ← parse_args cwd command_line;
  db_path ← args_db args;
  create_db db_path;;
  if bool_decide (command args = Some "add") then
    name ← args_name args;
    group ← args_group args;
    grade ← args_grade args;
    add_student db_path name group (GradeStr grade)
  else if bool_decide (command args = Some "display") then
    staff ← select_all db_path;
    display_students staff
  else if bool_decide (command args = Some "select") then
    select ← args_select args;
    staff ← select_by_grade db_path (PyStr select);
    display_students staff
  else mret tt.

(** The exit status of the process: an uncaught exception ends it with a
    traceback and status 1, argparse leaves through [SystemExit]. *)
Definition exit_status {A} (r : result A) : Z :=
  match r with
  | Ok _ => 0
  | Raise ParserExit => 0
  | Raise (ParserError _) => 2
  | Raise _ => 1
  end.

Definition initial_world : world := {| files := ∅; stdout := [] |}.

(** ** Predicates of the statements *)

Fixpoint is_ascii (s : string) : bool :=
  match s with
  | EmptyString => true
  | String c r => (Ascii.N_of_ascii c <? 128)%N && is_ascii r
  end.

(** The texts on which [py_int] is [int]: ASCII characters (a digit or a
    space of another script is outside of [py_int]), and no more of them
    than the 4300 digits an interpreter with a limit on the conversion
    accepts. *)
Definition plain_text (s : string) : bool :=
  is_ascii s && (String.length s <=? 4300)%nat.


Fixpoint string_forall (P : ascii → bool) (s : string) : bool :=
  match s with
  | EmptyString => true
  | String c r => P c && string_forall P r
  end.

(** The group rows an integer parameter is compared with without a
    conversion error: every title is the decimal text of an integer of
    the type of the parameter. *)
Definition comparable (z : Z) (gs : list group_row) : Prop :=
  Forall (λ g, ∃ z' : Z, group_title g = pretty z' ∧
                         in_type (type_of_int z) z' = true) gs.

Definition group_rows (d : database) : list group_row := default [] (groups d).
Definition student_rows (d : database) : list student_row := default [] (students d).

(** The group rows with a given title. *)
Definition titled (title : string) (gs : list group_row) : list group_row :=
  filter (λ g, group_title g = title) gs.

Definition schema_exists (d : database) : Prop :=
  is_Some (group_st d) ∧ is_Some (student_st d) ∧
  is_Some (groups d) ∧ is_Some (students d).

(** A sequence is ahead of the identifiers it has given out; they start
    at 1 and fit an INTEGER column. *)
Definition ids_below (seq : option sequence) (ids : list Z) : Prop :=
  match seq with
  | Some s =>
      1 ≤ counter s ∧ Forall (λ i, 1 ≤ i < counter s ∧ i ≤ INT32_MAX) ids
  | None => ids = []
  end.

(** Every student row references a group row. *)
Definition references_hold (d : database) : Prop :=
  Forall (λ s, ∃ g, g ∈ group_rows d ∧ group_id g = student_group_id s)
         (student_rows d).

Definition db_inv (d : database) : Prop :=
  ids_below (group_st d) (group_id <$> group_rows d) ∧
  ids_below (student_st d) (student_id <$> student_rows d) ∧
  NoDup (group_id <$> group_rows d) ∧
  references_hold d.

Definition db_ok (d : database) : Prop := schema_exists d ∧ db_inv d.

(** [n] more values of the sequence fit an INTEGER column. *)
Definition room (n : Z) (seq : option sequence) : Prop :=
  match seq with
  | Some s => counter s + n ≤ INT32_MAX + 1
  | None => False
  end.

(** What a field of the table shows: the text, and spaces before or after
    it up to the width of the column. *)
Definition right_aligned (width : nat) (text field : string) : Prop :=
  ∃ pad, field = spaces pad +:+ text ∧ py_len field = (width `max` py_len text)%nat.

Definition left_aligned (width : nat) (text field : string) : Prop :=
  ∃ pad, field = text +:+ spaces pad ∧ py_len field = (width `max` py_len text)%nat.

(** The calls a run of the program is made of. *)
Inductive call :=
| CallCreateDb (database_path : string)
| CallAddStudent (database_path name : string) (group : pyval) (grade : grade_value)
| CallSelectAll (database_path : string)
| CallSelectByGrade (database_path : string) (group : pyval)
| CallDisplayStudents (staff : list student)
| CallMain (cwd : string) (argv : command_line).

Definition run_call (c : call) (w : world) : world :=
  match c with
  | CallCreateDb p => (create_db p w).2
  | CallAddStudent p n g m => (add_student p n g m w).2
  | CallSelectAll p => (select_all p w).2
  | CallSelectByGrade p g => (select_by_grade p g w).2
  | CallDisplayStudents staff => (display_students staff w).2
  | CallMain cwd argv => (main cwd argv w).2
  end.

Definition run_calls (cs : list call) (w : world) : world :=
  foldl (λ w c, run_call c w) w cs.

Definition reachable (w : world) : Prop :=
  ∃ cs, run_calls cs initial_world = w.

(** A database after [nextval] on one of its sequences. *)
Definition advance (n : sequence_name) (d : database) : database :=
  match get_sequence n d with
  | Some s =>
      set_sequence n {| counter := counter s + 1;
                        last_value := Some (counter s) |} d
  | None => d
  end.

(** What [create_db] leaves of a database: what was there stays. *)
Definition with_schema (d : database) : database :=
  {| group_st := Some (default {| counter := 1; last_value := None |} (group_st d));
     student_st := Some (default {| counter := 1; last_value := None |} (student_st d));
     groups := Some (group_rows d);
     students := Some (student_rows d) |}.

(** The value the next [nextval] on a sequence returns. *)
Definition next_value (seq : option sequence) : Z :=
  match seq with
  | Some s => counter s
  | None => 1
  end.

(** The group resolver as the specification words it: look the title up;
    if a row has it, its identifier; if none has, the next value of the
    sequence, with a new row of that identifier and the title. *)
Definition resolver_spec (title : string) (d : database) : Z * database :=
  match titled title (group_rows d) with
  | g :: _ => (group_id g, d)
  | [] =>
      let id := next_value (group_st d) in
      (id,
       set_groups (group_rows d ++ [{| group_id := id; group_title := title |}])
                  (advance GroupSt d))
  end.

(** The database after a student was added to the group of a title. *)
Definition with_student (n t : string) (marks : list Z) (d : database)
  : database :=
  let '(gid, d1) := resolver_spec t d in
  set_students
    (student_rows d1 ++
       [{| student_id := next_value (student_st d1); student_name := n;
           student_group_id := gid; student_grade := marks |}])
    (advance StudentSt d1).

(** Every file holds a database that satisfies the invariant. *)
Definition world_inv (w : world) : Prop :=
  ∀ p d, files w !! p = Some d → db_inv d.

(** A computation keeps a property of the state, whether it returns or
    raises. *)
Definition preserves {S A} (P : S → Prop) (m : M S A) : Prop :=
  ∀ s, P s → P (m s).2.

(** ** Predicates of the further properties *)

(** The statements of [add_student] between [connect] and [close]. *)
Definition add_body (n : string) (v : pyval) (m : grade_value) : Db unit :=
  group_id ← resolve_group v;
  insert_into_students n group_id m.

(** A sequence that exists stays, and does not go back. *)
Definition seq_le (a b : option sequence) : Prop :=
  match a with
  | Some s => ∃ s', b = Some s' ∧ counter s ≤ counter s'
  | None => True
  end.

(** A table that exists stays, with its rows where they were; rows may
    follow them. *)
Definition table_le {A} (a b : option (list A)) : Prop :=
  match a with
  | Some l => ∃ l', b = Some l' ∧ l `prefix_of` l'
  | None => True
  end.

Definition extends (d d' : database) : Prop :=
  seq_le (group_st d) (group_st d') ∧ seq_le (student_st d) (student_st d') ∧
  table_le (groups d) (groups d') ∧ table_le (students d) (students d').

(** Every file stays, its database extended; what was printed stays. *)
Definition world_extends (w w' : world) : Prop :=
  (∀ p d, files w !! p = Some d → ∃ d', files w' !! p = Some d' ∧ extends d d') ∧
  stdout w `prefix_of` stdout w'.

(** A computation moves the state along a relation, whether it returns or
    raises. *)
Definition advances {S A} (R : S → S → Prop) (m : M S A) : Prop :=
  ∀ s, R s (m s).2.

(** Every file holds a database with a property. *)
Definition files_inv (P : database → Prop) (w : world) : Prop :=
  ∀ p d, files w !! p = Some d → P d.

(** The keys of the two tables: no two students share an identifier, no
    two groups share a title. *)
Definition keys_distinct (d : database) : Prop :=
  NoDup (student_id <$> student_rows d) ∧ NoDup (group_title <$> group_rows d).

Definition keys_inv (d : database) : Prop := db_inv d ∧ keys_distinct d.

(** Every title is the decimal text of an integer, as [main] writes
    them. *)
Definition canonical (d : database) : Prop :=
  Forall (λ g, ∃ z : Z, group_title g = pretty z) (group_rows d).

(** The worlds reached by runs of the program from the command line. *)
Definition run_mains (runs : list (string * command_line)) (w : world) : world :=
  foldl (λ w r, (main r.1 r.2 w).2) w runs.

Definition cli_reachable (w : world) : Prop :=
  ∃ runs, run_mains runs initial_world = w.

(** What [display_students] prints for a list. *)
Definition display_lines (staff : list student) : list string :=
  stdout (display_students staff initial_world).2.

(** The exceptions of the storage engine. *)
Definition is_engine_exn (e : exn) : bool :=
  match e with
  | CatalogException | ConstraintException _ | ConversionException
  | SequenceException => true
  | _ => false
  end.

(** A text that names a file: without a colon it is neither ":memory:",
    the database that is in no file, nor an address. *)
Definition file_name (p : string) : bool :=
  string_forall (λ c, negb (bool_decide (c = ":"%char))) p.

Fixpoint no_space (s : string) : bool :=
  match s with
  | EmptyString => true
  | String c r => negb (py_isspace c) && no_space r
  end.

(** ** Running the monad *)

Lemma bind_run {S A B} (m : M S A) (f : A → M S B) (s : S) :
  (m ≫= f) s =
  match m s with
  | (Ok a, s') => f a s'
  | (Raise e, s') => (Raise e, s')
  end.
Proof. reflexivity. Qed.

Lemma world_eta (w : world) : {| files := files w; stdout := stdout w |} = w.
Proof. by destruct w. Qed.

Lemma with_connection_run {A} (p : string) (body : Db A) (w : world) :
  with_connection p body w =
  ((body (default empty_database (files w !! p))).1,
   {| files := <[p := (body (default empty_database (files w !! p))).2]> (files w);
      stdout := stdout w |}).
Proof. unfold with_connection. by destruct (body _). Qed.

(** A body that leaves the database of an existing file as it is leaves
    the world as it is. *)
Lemma with_connection_read {A} (p : string) (body : Db A) (w : world) d r :
  files w !! p = Some d → body d = (r, d) → with_connection p body w = (r, w).
Proof.
  intros Hp Hb. rewrite with_connection_run, Hp. simpl. rewrite Hb. simpl.
  by rewrite insert_id, world_eta.
Qed.

Lemma create_db_body_run (d : database) :
  (create_sequence_if_not_exists GroupSt;;
   create_sequence_if_not_exists StudentSt;;
   create_groups_if_not_exists;;
   create_students_if_not_exists) d = (Ok tt, with_schema d).
Proof. by destruct d as [[?|] [?|] [?|] [?|]]. Qed.

Lemma create_db_run (p : string) (w : world) :
  create_db p w =
  (Ok tt, {| files := <[p := with_schema (default empty_database (files w !! p))]> (files w);
             stdout := stdout w |}).
Proof.
  unfold create_db. rewrite with_connection_run. by rewrite create_db_body_run.
Qed.

(** ** The WHERE clause *)

Lemma where_title_str (t : string) (gs : list group_row) (d : database) :
  where_title (PyStr t) gs d = (Ok (titled t gs), d).
Proof.
  induction gs as [|g gs IH]; [done|].
  cbn [where_title]. rewrite bind_run. cbn [title_equals mret M_ret].
  rewrite bind_run, IH. unfold titled. rewrite filter_cons.
  cbn [mret M_ret]. by case_bool_decide; case_decide.
Qed.

Lemma where_title_none (gs : list group_row) (d : database) :
  where_title PyNone gs d = (Ok [], d).
Proof.
  induction gs as [|g gs IH]; [done|].
  cbn [where_title]. rewrite bind_run. cbn [title_equals mret M_ret].
  by rewrite bind_run, IH.
Qed.

(** Whatever the parameter, the clause changes nothing; it returns rows
    of the table, or fails on a conversion. *)
Lemma where_title_sub (v : pyval) (gs : list group_row) (d : database) :
  ∃ r, where_title v gs d = (r, d) ∧
       match r with
       | Ok rows => rows ⊆ gs
       | Raise e => e = ConversionException
       end.
Proof.
  induction gs as [|g gs (r & IH & Hsub)].
  - by exists (Ok []).
  - cbn [where_title]. rewrite bind_run.
    assert (∃ rb, title_equals v (group_title g) d = (rb, d) ∧
                  ∀ e, rb = Raise e → e = ConversionException) as (rb & Hb & He).
    { destruct v; cbn; eauto; [by eexists|idtac|by eexists].
      destruct (cast_text _ _); cbn; eexists; split; try done.
      intros e ?. by simplify_eq. }
    rewrite Hb. destruct rb as [b|e]; [|exists (Raise e); split; eauto].
    rewrite bind_run, IH. destruct r as [rest|e]; [|by exists (Raise e)].
    eexists. split; [done|]. cbn. intros g' Hg'.
    destruct b; [apply elem_of_cons in Hg' as [->|Hg']|];
      [left|right; by apply Hsub..].
Qed.

(** ** The two INSERT statements *)

Ltac run_monad :=
  unfold mbind, M_bind, mret, M_ret, get, put, raise;
  cbn -[Z.ltb in_int32 INT64_MAX int_list_of bind_text text_to_integer
        cast_text type_of_int where_title insert_into_groups insert_into_students currval].

Lemma insert_into_groups_run (v : pyval) (d : database) :
  insert_into_groups v d =
  match groups d, group_st d with
  | Some gs, Some s =>
      if counter s <? INT64_MAX then
        if in_int32 (counter s) then
          match bind_text v with
          | None => (Raise (ConstraintException NotNull), advance GroupSt d)
          | Some t =>
              if bool_decide (counter s ∈ group_id <$> gs)
              then (Raise (ConstraintException PrimaryKey), advance GroupSt d)
              else (Ok tt,
                    set_groups (gs ++ [{| group_id := counter s; group_title := t |}])
                               (advance GroupSt d))
          end
        else (Raise ConversionException, advance GroupSt d)
      else (Raise SequenceException, d)
  | _, _ => (Raise CatalogException, d)
  end.
Proof.
  destruct d as [sg ss [gs|] st]; [|done]. destruct sg as [s|]; [|done].
  unfold insert_into_groups, advance, nextval, cast_integer, table_groups.
  run_monad.
  destruct (counter s <? INT64_MAX); [|done].
  destruct (in_int32 (counter s)); [|done].
  destruct (bind_text v); [|done]. by case_bool_decide.
Qed.

Lemma insert_into_students_run (n : string) (gid : Z) (m : grade_value) (d : database) :
  insert_into_students n gid m d =
  match students d, groups d, student_st d with
  | Some ss, Some gs, Some s =>
      if counter s <? INT64_MAX then
        if in_int32 (counter s) && in_int32 gid then
          match int_list_of m with
          | None => (Raise ConversionException, advance StudentSt d)
          | Some marks =>
              if bool_decide (counter s ∈ student_id <$> ss)
              then (Raise (ConstraintException PrimaryKey), advance StudentSt d)
              else if bool_decide (gid ∈ group_id <$> gs)
              then (Ok tt,
                    set_students
                      (ss ++ [{| student_id := counter s; student_name := n;
                                 student_group_id := gid; student_grade := marks |}])
                      (advance StudentSt d))
              else (Raise (ConstraintException ForeignKey), advance StudentSt d)
          end
        else (Raise ConversionException, advance StudentSt d)
      else (Raise SequenceException, d)
  | _, _, _ => (Raise CatalogException, d)
  end.
Proof.
  destruct d as [sg [s|] [gs|] [ss|]]; try done.
  unfold insert_into_students, advance, nextval, cast_integer, bind_int_list,
    table_groups, table_students.
  run_monad.
  destruct (counter s <? INT64_MAX); [|done].
  destruct (in_int32 (counter s)); [|done].
  destruct (in_int32 gid); [|done].
  destruct (int_list_of m); [|done].
  by repeat case_bool_decide.
Qed.

(** ** The invariant of a database *)

Lemma ids_below_not_in (s : sequence) (ids : list Z) :
  ids_below (Some s) ids → counter s ∉ ids.
Proof.
  intros [_ Hall] Hin. rewrite Forall_forall in Hall.
  specialize (Hall _ Hin). lia.
Qed.

Lemma db_inv_advance (n : sequence_name) (d : database) :
  db_inv d → db_inv (advance n d).
Proof.
  intros Hinv. unfold advance.
  destruct n; cbn [get_sequence].
  - destruct (group_st d) as [s|] eqn:E; [|done].
    destruct Hinv as (Hg & Hs & Hnd & Hfk). rewrite E in Hg.
    split_and!; try done. destruct Hg as [? Hall]. split; cbn; [lia|].
    eapply Forall_impl; [exact Hall|]. cbn. intros; lia.
  - destruct (student_st d) as [s|] eqn:E; [|done].
    destruct Hinv as (Hg & Hs & Hnd & Hfk). rewrite E in Hs.
    split_and!; try done. destruct Hs as [? Hall]. split; cbn; [lia|].
    eapply Forall_impl; [exact Hall|]. cbn. intros; lia.
Qed.

Lemma db_inv_insert_group (d : database) s gs (t : string) :
  db_inv d → group_st d = Some s → groups d = Some gs →
  in_int32 (counter s) = true →
  db_inv (set_groups (gs ++ [{| group_id := counter s; group_title := t |}])
                     (advance GroupSt d)).
Proof.
  intros (Hg & Hs & Hnd & Hfk) Es Egs [_ Hmax%Z.leb_le]%andb_true_iff.
  unfold db_inv, references_hold, group_rows, student_rows, advance in *.
  cbn [get_sequence]. rewrite Es. rewrite Es, Egs in Hg. rewrite Egs in Hnd, Hfk.
  cbn in *. rewrite fmap_app. cbn.
  pose proof (ids_below_not_in _ _ Hg) as Hfresh.
  destruct Hg as [? Hall]. split_and!.
  - lia.
  - apply Forall_app. split.
    + eapply Forall_impl; [exact Hall|]. cbn. intros; lia.
    + apply Forall_singleton. lia.
  - done.
  - apply NoDup_app. split_and!; [done| |apply NoDup_singleton].
    intros x Hx ->%list_elem_of_singleton. done.
  - eapply Forall_impl; [exact Hfk|]. cbn. intros st (g & Hin & Heq).
    exists g. split; [|done]. apply elem_of_app. by left.
Qed.

Lemma db_inv_insert_student (d : database) s ss (n : string) gid marks :
  db_inv d → student_st d = Some s → students d = Some ss →
  in_int32 (counter s) = true →
  gid ∈ group_id <$> group_rows d →
  db_inv (set_students
            (ss ++ [{| student_id := counter s; student_name := n;
                       student_group_id := gid; student_grade := marks |}])
            (advance StudentSt d)).
Proof.
  intros (Hg & Hs & Hnd & Hfk) Es Ess [_ Hmax%Z.leb_le]%andb_true_iff Hgid.
  unfold db_inv, references_hold, group_rows, student_rows, advance in *.
  cbn [get_sequence]. rewrite Es. rewrite Es, Ess in Hs. rewrite Ess in Hfk.
  cbn in *. rewrite fmap_app. cbn.
  destruct Hs as [? Hall]. split_and!; try done.
  - lia.
  - apply Forall_app. split.
    + eapply Forall_impl; [exact Hall|]. cbn. intros; lia.
    + apply Forall_singleton. lia.
  - apply Forall_app. split; [done|]. apply Forall_singleton. cbn.
    apply list_elem_of_fmap in Hgid as (g & -> & Hin). by exists g.
Qed.

Lemma insert_into_groups_inv (v : pyval) (d : database) :
  db_inv d → db_inv (insert_into_groups v d).2.
Proof.
  intros Hinv. rewrite insert_into_groups_run.
  destruct (groups d) as [gs|] eqn:Egs; [|done].
  destruct (group_st d) as [s|] eqn:Es; [|done].
  destruct (counter s <? INT64_MAX); [|done].
  destruct (in_int32 (counter s)) eqn:E32; [|by apply db_inv_advance].
  destruct (bind_text v); [|by apply db_inv_advance].
  case_bool_decide; [by apply db_inv_advance|].
  by apply db_inv_insert_group.
Qed.

Lemma insert_into_students_inv (n : string) gid m (d : database) :
  db_inv d → db_inv (insert_into_students n gid m d).2.
Proof.
  intros Hinv. rewrite insert_into_students_run.
  destruct (students d) as [ss|] eqn:Ess; [|done].
  destruct (groups d) as [gs|] eqn:Egs; [|done].
  destruct (student_st d) as [s|] eqn:Es; [|done].
  destruct (counter s <? INT64_MAX); [|done].
  destruct (in_int32 (counter s)) eqn:E32; [|by apply db_inv_advance].
  destruct (in_int32 gid); [|by apply db_inv_advance].
  destruct (int_list_of m); [|by apply db_inv_advance].
  cbn [andb]. repeat case_bool_decide; try by apply db_inv_advance.
  apply db_inv_insert_student; try done.
  unfold group_rows. by rewrite Egs.
Qed.

(** ** The group of a new student *)

Lemma currval_after_insert (d : database) s gs :
  group_st d = Some s →
  currval GroupSt (set_groups gs (advance GroupSt d)) =
  (Ok (counter s), set_groups gs (advance GroupSt d)).
Proof.
  intros Es. unfold currval, advance. cbn [get_sequence]. rewrite Es.
  by run_monad.
Qed.

Lemma insert_into_groups_ok (v : pyval) (d d' : database) u :
  insert_into_groups v d = (Ok u, d') →
  ∃ s gs t, group_st d = Some s ∧ groups d = Some gs ∧ bind_text v = Some t ∧
    d' = set_groups (gs ++ [{| group_id := counter s; group_title := t |}])
                    (advance GroupSt d).
Proof.
  rewrite insert_into_groups_run.
  destruct (groups d) as [gs|]; [|done]. destruct (group_st d) as [s|]; [|done].
  destruct (counter s <? INT64_MAX); [|done].
  destruct (in_int32 (counter s)); [|done].
  destruct (bind_text v) as [t|]; [|done].
  case_bool_decide; [done|]. intros ?; simplify_eq. by exists s, gs, t.
Qed.

Lemma insert_into_groups_raise (v : pyval) (d d' : database) e :
  insert_into_groups v d = (Raise e, d') → e ≠ ConstraintException ForeignKey.
Proof.
  rewrite insert_into_groups_run. intros H ->. revert H.
  by repeat case_match.
Qed.

Lemma resolve_group_run (v : pyval) (d : database) :
  resolve_group v d =
  match groups d with
  | None => (Raise CatalogException, d)
  | Some gs =>
      match (where_title v gs d).1 with
      | Raise e => (Raise e, d)
      | Ok (g :: _) => (Ok (group_id g), d)
      | Ok [] =>
          match insert_into_groups v d with
          | (Ok _, d') => currval GroupSt d'
          | (Raise e, d') => (Raise e, d')
          end
      end
  end.
Proof.
  unfold resolve_group, select_group_id, table_groups.
  rewrite !bind_run. cbn [get].
  destruct (groups d) as [gs|] eqn:E; [|done]. cbn [mret M_ret].
  rewrite bind_run.
  destruct (where_title_sub v gs d) as (r & Hr & _). rewrite Hr. cbn [fst].
  by destruct r as [[|g rows]|e].
Qed.

(** The identifier [resolve_group] returns is the identifier of a group
    row of the database it leaves. *)
Lemma resolve_group_in (v : pyval) (d d' : database) gid :
  resolve_group v d = (Ok gid, d') → gid ∈ group_id <$> group_rows d'.
Proof.
  rewrite resolve_group_run. destruct (groups d) as [gs|] eqn:Egs; [|done].
  destruct (where_title_sub v gs d) as (r & Hr & Hsub). rewrite Hr. cbn [fst].
  destruct r as [[|g rows]|e]; [| |done].
  - destruct (insert_into_groups v d) as [[u|e] d1] eqn:E; [|done].
    apply insert_into_groups_ok in E as (s & gs' & t & Es & Egs' & _ & ->).
    rewrite (currval_after_insert _ s) by done. intros ?; simplify_eq.
    unfold group_rows. cbn. rewrite fmap_app. apply elem_of_app. right.
    cbn. left.
  - intros ?; simplify_eq. unfold group_rows. rewrite Egs. cbn.
    apply list_elem_of_fmap. exists g. split; [done|]. apply Hsub. left.
Qed.

Lemma resolve_group_raise (v : pyval) (d d' : database) e :
  resolve_group v d = (Raise e, d') → e ≠ ConstraintException ForeignKey.
Proof.
  rewrite resolve_group_run. destruct (groups d) as [gs|] eqn:Egs;
    [|by intros ?; simplify_eq].
  destruct (where_title_sub v gs d) as (r & Hr & Hsub). rewrite Hr. cbn [fst].
  destruct r as [[|g rows]|e']; [| |by intros ?; simplify_eq].
  - destruct (insert_into_groups v d) as [[u|e1] d1] eqn:E.
    + apply insert_into_groups_ok in E as (s & gs' & t & Es & Egs' & _ & ->).
      by rewrite (currval_after_insert _ s).
    + intros ?; simplify_eq. by eapply insert_into_groups_raise.
  - done.
Qed.

Lemma resolve_group_inv (v : pyval) (d : database) :
  db_inv d → db_inv (resolve_group v d).2.
Proof.
  intros Hinv. rewrite resolve_group_run.
  destruct (groups d) as [gs|] eqn:Egs; [|done].
  destruct (where_title_sub v gs d) as (r & Hr & _). rewrite Hr. cbn [fst].
  destruct r as [[|g rows]|e]; try done.
  pose proof (insert_into_groups_inv v d Hinv) as Hins.
  destruct (insert_into_groups v d) as [[u|e] d1] eqn:E; [|done].
  apply insert_into_groups_ok in E as (s & gs' & t & Es & Egs' & _ & ->).
  by rewrite (currval_after_insert _ s).
Qed.

(** The body of [add_student], on the database of the file. *)
Lemma add_student_body_inv n v m (d : database) :
  db_inv d →
  db_inv ((group_id ← resolve_group v; insert_into_students n group_id m) d).2.
Proof.
  intros Hinv. rewrite bind_run.
  pose proof (resolve_group_inv v d Hinv) as H.
  destruct (resolve_group v d) as [[gid|e] d']; [|done].
  by apply insert_into_students_inv.
Qed.

Lemma add_student_body_no_fk n v m (d : database) :
  ((group_id ← resolve_group v; insert_into_students n group_id m) d).1
  ≠ Raise (ConstraintException ForeignKey).
Proof.
  rewrite bind_run.
  destruct (resolve_group v d) as [[gid|e] d'] eqn:E.
  - apply resolve_group_in in E. rewrite insert_into_students_run.
    unfold group_rows in E.
    repeat case_match; try done.
    cbn in E. by case_bool_decide.
  - cbn. apply resolve_group_raise in E. congruence.
Qed.

Lemma select_join_run (d : database) :
  select_join d =
  match students d, groups d with
  | Some ss, Some gs => (Ok (inner_join ss gs), d)
  | _, _ => (Raise CatalogException, d)
  end.
Proof. by destruct d as [? ? [?|] [?|]]. Qed.

Lemma select_join_where_state (v : pyval) (d : database) :
  (select_join_where v d).2 = d.
Proof.
  unfold select_join_where, table_students, table_groups.
  rewrite !bind_run. cbn [get].
  destruct (students d); [|done]. cbn [mret M_ret]. rewrite !bind_run. cbn [get].
  destruct (groups d) as [gs|]; [|done]. cbn [mret M_ret]. rewrite bind_run.
  destruct (where_title_sub v gs d) as (r & Hr & _). rewrite Hr.
  by destruct r.
Qed.

Lemma select_join_where_str (t : string) (d : database) :
  select_join_where (PyStr t) d =
  match students d, groups d with
  | Some ss, Some gs => (Ok (inner_join ss (titled t gs)), d)
  | _, _ => (Raise CatalogException, d)
  end.
Proof.
  unfold select_join_where, table_students, table_groups.
  rewrite !bind_run. cbn [get].
  destruct (students d); [|done]. cbn [mret M_ret]. rewrite !bind_run. cbn [get].
  destruct (groups d) as [gs|]; [|done]. cbn [mret M_ret].
  by rewrite bind_run, where_title_str.
Qed.

(** ** The invariant of the files *)

Lemma preserves_bind {S A B} (P : S → Prop) (m : M S A) (f : A → M S B) :
  preserves P m → (∀ a, preserves P (f a)) → preserves P (m ≫= f).
Proof.
  intros Hm Hf s Hs. rewrite bind_run. specialize (Hm s Hs).
  destruct (m s) as [[a|e] s']; [by apply Hf|done].
Qed.

Lemma preserves_ret {S A} (P : S → Prop) (a : A) : preserves P (mret a).
Proof. by intros s. Qed.

Lemma preserves_raise {S A} (P : S → Prop) e : preserves P (raise e : M S A).
Proof. by intros s. Qed.

Lemma db_inv_empty : db_inv empty_database.
Proof.
  unfold db_inv, references_hold. cbn. split_and!; try done. constructor.
Qed.

Lemma ids_below_default (seq : option sequence) (ids : list Z) :
  ids_below seq ids →
  ids_below (Some (default {| counter := 1; last_value := None |} seq)) ids.
Proof.
  destruct seq as [s|]; cbn; [done|]. intros ->. split; [lia|constructor].
Qed.

Lemma db_inv_with_schema (d : database) : db_inv d → db_inv (with_schema d).
Proof.
  intros (Hg & Hs & Hnd & Hfk).
  split; [|split; [|split]]; [by apply ids_below_default..|done|done].
Qed.

Lemma with_connection_inv {A} (p : string) (body : Db A) :
  preserves db_inv body → preserves world_inv (with_connection p body).
Proof.
  intros Hbody w Hw p' d'. rewrite with_connection_run. cbn [snd files].
  rewrite lookup_insert. case_decide; [|by apply Hw].
  intros ?; simplify_eq. apply Hbody.
  destruct (files w !! p') as [d|] eqn:E; [by eapply Hw|apply db_inv_empty].
Qed.

Lemma for_each_print {A} (l : list A) (body : A → IO unit) (f : A → string)
    (w : world) :
  (∀ x, body x = print (f x)) →
  for_each l body w =
  (Ok tt, {| files := files w; stdout := stdout w ++ (f <$> l) |}).
Proof.
  intros Hbody. revert w. induction l as [|x l IH]; intros w.
  - cbn. by rewrite app_nil_r, world_eta.
  - cbn [for_each]. rewrite bind_run, Hbody. cbn [print]. rewrite IH. cbn.
    by rewrite <- app_assoc.
Qed.

Lemma display_students_run (staff : list student) (w : world) :
  display_students staff w =
  (Ok tt,
   {| files := files w;
      stdout := stdout w ++
        match staff with
        | [] => ["Список студентов пуст."]
        | _ => [table_line; table_head; table_line]
               ++ ((λ '(idx, s), table_row idx s) <$> enumerate staff 1)
               ++ [table_line]
        end |}).
Proof.
  destruct staff as [|s staff]; [done|].
  unfold display_students. do 4 (rewrite bind_run; cbn [print]).
  rewrite (for_each_print _ _ (λ '(idx, s), table_row idx s))
    by (by intros [??]).
  unfold print. cbn [files stdout]. by rewrite <- !app_assoc.
Qed.

Lemma create_db_inv (p : string) : preserves world_inv (create_db p).
Proof.
  apply with_connection_inv. intros d Hd. rewrite create_db_body_run.
  by apply db_inv_with_schema.
Qed.

Lemma add_student_inv p n v m : preserves world_inv (add_student p n v m).
Proof. apply with_connection_inv. intros d. apply add_student_body_inv. Qed.

Lemma select_all_inv p : preserves world_inv (select_all p).
Proof.
  apply with_connection_inv. intros d Hd. rewrite bind_run, select_join_run.
  by destruct (students d), (groups d).
Qed.

Lemma select_by_grade_inv p v : preserves world_inv (select_by_grade p v).
Proof.
  apply with_connection_inv. intros d Hd. rewrite bind_run.
  pose proof (select_join_where_state v d) as H.
  destruct (select_join_where v d) as [[rows|e] d']; cbn in *; by subst.
Qed.

Lemma display_students_inv staff : preserves world_inv (display_students staff).
Proof. intros w Hw. by rewrite display_students_run. Qed.

Lemma main_inv cwd argv : preserves world_inv (main cwd argv).
Proof.
  unfold main. apply preserves_bind.
  { destruct argv as [| |db n g m|db|db sel]; cbn [parse_args].
    - apply preserves_ret.
    - apply preserves_bind; [by intros w|intros; apply preserves_raise].
    - apply preserves_bind.
      + destruct g as [text|]; cbn; [|apply preserves_ret].
        destruct (py_int text); [apply preserves_ret|apply preserves_raise].
      + intros v. destruct n, m; by intros w.
    - apply preserves_ret.
    - destruct sel; by intros w. }
  intros args. apply preserves_bind; [destruct args; by intros w|].
  intros db_path. apply preserves_bind; [apply create_db_inv|]. intros _.
  repeat case_bool_decide.
  - repeat (apply preserves_bind; [destruct args; by intros w|]; intros ?).
    apply add_student_inv.
  - apply preserves_bind; [apply select_all_inv|]. intros staff.
    apply display_students_inv.
  - apply preserves_bind; [destruct args; by intros w|]. intros sel.
    apply preserves_bind; [apply select_by_grade_inv|]. intros staff.
    apply display_students_inv.
  - apply preserves_ret.
Qed.

Lemma run_call_inv (c : call) (w : world) : world_inv w → world_inv (run_call c w).
Proof.
  destruct c; cbn.
  - apply create_db_inv.
  - apply add_student_inv.
  - apply select_all_inv.
  - apply select_by_grade_inv.
  - apply display_students_inv.
  - apply main_inv.
Qed.

Lemma reachable_inv (w : world) : reachable w → world_inv w.
Proof.
  intros [cs <-].
  assert (world_inv initial_world) as H0 by (intros p d; cbn; by rewrite lookup_empty).
  revert H0. generalize initial_world.
  induction cs as [|c cs IH]; intros w Hw; [done|].
  cbn. apply IH. by apply run_call_inv.
Qed.

(** After [create_db], the file of a reached world has the schema and the
    invariant. *)
Lemma reachable_create_db_ok (p : string) (w : world) :
  reachable w →
  ∃ d, files (create_db p w).2 !! p = Some d ∧ db_ok d.
Proof.
  intros Hreach. rewrite create_db_run. cbn [snd files].
  eexists. split; [apply lookup_insert_eq|]. split.
  - cbn. by repeat split.
  - apply db_inv_with_schema.
    destruct (files w !! p) as [d|] eqn:E; [|apply db_inv_empty].
    by apply (reachable_inv w Hreach p d).
Qed.

(** ** The join *)

Lemma inner_join_app (ss1 ss2 : list student_row) (gs : list group_row) :
  inner_join (ss1 ++ ss2) gs = inner_join ss1 gs ++ inner_join ss2 gs.
Proof. unfold inner_join. apply bind_app. Qed.

Lemma elem_of_inner_join ss gs (n t : string) (marks : list Z) :
  (n, t, marks) ∈ inner_join ss gs ↔
  ∃ s g, s ∈ ss ∧ g ∈ gs ∧ group_id g = student_group_id s ∧
         n = student_name s ∧ t = group_title g ∧ marks = student_grade s.
Proof.
  unfold inner_join. rewrite list_elem_of_bind. split.
  - intros (s & Hin & Hs). apply list_elem_of_bind in Hin as (g & Hin & Hg).
    apply list_elem_of_filter in Hg as [Hid Hg].
    apply list_elem_of_singleton in Hin. simplify_eq. by exists s, g.
  - intros (s & g & Hs & Hg & Hid & -> & -> & ->). exists s. split; [|done].
    apply list_elem_of_bind. exists g. split; [apply list_elem_of_singleton; done|].
    by apply list_elem_of_filter.
Qed.

(** Restricting the groups to a title is filtering the join on it. *)
Lemma inner_join_titled ss gs (t : string) :
  to_student <$> inner_join ss (titled t gs) =
  filter (λ r, group r = t) (to_student <$> inner_join ss gs).
Proof.
  unfold inner_join. induction ss as [|s ss IH]; [done|].
  rewrite !bind_cons, !fmap_app, filter_app, IH. f_equal.
  clear IH. induction gs as [|g gs IH]; [done|].
  unfold titled in *. rewrite !filter_cons.
  destruct (decide (group_title g = t)) as [Ht|Ht];
    destruct (decide (group_id g = student_group_id s)) as [Hid|Hid].
  - rewrite filter_cons_True by done. rewrite !bind_cons. cbn [fmap list_fmap app].
    rewrite filter_cons_True by done. by rewrite IH.
  - rewrite filter_cons_False by done. by rewrite IH.
  - rewrite bind_cons. cbn [fmap list_fmap app].
    rewrite filter_cons_False by done. by rewrite IH.
  - by rewrite IH.
Qed.

(** A group nobody references adds nothing to the join. *)
Lemma inner_join_unreferenced ss gs (g : group_row) :
  Forall (λ s, student_group_id s ≠ group_id g) ss →
  inner_join ss (gs ++ [g]) = inner_join ss gs.
Proof.
  unfold inner_join. induction 1 as [|s ss Hs _ IH]; [done|].
  rewrite !bind_cons, IH. f_equal. rewrite filter_app.
  rewrite (filter_cons_False _ g) by (cbn; congruence).
  by rewrite filter_nil, app_nil_r.
Qed.

Lemma filter_group_id_fresh gs (i : Z) :
  i ∉ group_id <$> gs → filter (λ g, group_id g = i) gs = [].
Proof.
  induction gs as [|g gs IH]; [done|]. rewrite fmap_cons, not_elem_of_cons.
  intros [Hne Hnot]. rewrite filter_cons_False by (cbn; congruence). by apply IH.
Qed.

(** With distinct identifiers, a student joins the one group it
    references. *)
Lemma filter_group_id gs (g : group_row) :
  NoDup (group_id <$> gs) → g ∈ gs →
  filter (λ g', group_id g' = group_id g) gs = [g].
Proof.
  induction gs as [|g' gs IH]; intros Hnd Hin; [by apply elem_of_nil in Hin|].
  rewrite fmap_cons in Hnd. apply NoDup_cons in Hnd as [Hfresh Hnd].
  apply elem_of_cons in Hin as [->|Hin].
  - rewrite filter_cons_True by done. f_equal.
    by apply filter_group_id_fresh.
  - rewrite filter_cons_False; [by apply IH|].
    intros Heq. apply Hfresh. rewrite Heq. by apply list_elem_of_fmap_2.
Qed.

Lemma inner_join_single gs (s : student_row) (g : group_row) :
  NoDup (group_id <$> gs) → g ∈ gs → group_id g = student_group_id s →
  inner_join [s] gs = [(student_name s, group_title g, student_grade s)].
Proof.
  intros Hnd Hin Hid. unfold inner_join. rewrite bind_cons. cbn [mbind list_bind].
  rewrite app_nil_r, <- Hid, filter_group_id by done. done.
Qed.

(** ** Adding a student to a group given by its title *)

Lemma room_in_int32 (seq : option sequence) (ids : list Z) s :
  seq = Some s → ids_below seq ids → room 1 seq →
  (counter s <? INT64_MAX) = true ∧ in_int32 (counter s) = true.
Proof.
  intros -> [H1 _] Hroom. unfold room, in_int32, INT32_MIN, INT32_MAX, INT64_MAX in *.
  split; [|apply andb_true_intro; split]; lia.
Qed.

Lemma resolve_group_str (t : string) (d : database) :
  db_ok d → (titled t (group_rows d) = [] → room 1 (group_st d)) →
  resolve_group (PyStr t) d = (Ok (resolver_spec t d).1, (resolver_spec t d).2).
Proof.
  intros [(Hsg & _ & Hgs & _) (Hg & _)] Hroom.
  destruct Hsg as [s Es], Hgs as [gs Egs].
  rewrite resolve_group_run, Egs, where_title_str. cbn [fst].
  unfold resolver_spec, group_rows in *. rewrite Egs in *.
  cbn [default from_option id] in *.
  destruct (titled t gs) as [|g rest]; [|reflexivity].
  specialize (Hroom eq_refl). rewrite Es in Hg.
  rewrite insert_into_groups_run, Egs, Es.
  destruct (room_in_int32 _ _ s Es ltac:(by rewrite Es) Hroom) as [-> ->].
  cbn [bind_text]. rewrite bool_decide_eq_false_2 by by apply ids_below_not_in.
  by rewrite (currval_after_insert _ s).
Qed.

(** The group the resolver settles on is a group of the database it
    leaves, has the title, and that database is as good as the first. *)
Lemma resolver_spec_ok (t : string) (d : database) :
  db_ok d → (titled t (group_rows d) = [] → room 1 (group_st d)) →
  db_ok (resolver_spec t d).2 ∧
  student_st (resolver_spec t d).2 = student_st d ∧
  students (resolver_spec t d).2 = students d ∧
  ∃ g, g ∈ group_rows (resolver_spec t d).2 ∧
       group_id g = (resolver_spec t d).1 ∧ group_title g = t ∧
       titled t (group_rows (resolver_spec t d).2) =
         match titled t (group_rows d) with [] => [g] | l => l end ∧
       group_rows (resolver_spec t d).2 =
         group_rows d ++ match titled t (group_rows d) with [] => [g] | _ => [] end.
Proof.
  intros [Hschema Hinv] Hroom. pose proof Hschema as (Hsg & Hss & Hgs & Hst).
  destruct Hsg as [s Es], Hgs as [gs Egs].
  unfold resolver_spec, group_rows in *. rewrite Egs in *.
  cbn [default from_option id] in *.
  destruct (titled t gs) as [|g rest] eqn:Et; cbn [fst snd].
  - specialize (Hroom eq_refl).
    destruct (room_in_int32 _ _ s Es (proj1 Hinv) Hroom) as [_ H32].
    split_and!.
    + split.
      * unfold schema_exists, advance. cbn [get_sequence]. rewrite Es. cbn.
        split_and!; eauto.
      * rewrite Es. cbn [next_value]. by apply db_inv_insert_group.
    + unfold advance. cbn [get_sequence]. by rewrite Es.
    + unfold advance. cbn [get_sequence]. by rewrite Es.
    + exists {| group_id := next_value (group_st d); group_title := t |}.
      split_and!; [|done|done| |done].
      * cbn. apply elem_of_app. right. left.
      * cbn. unfold titled in *. rewrite filter_app, Et.
        by rewrite filter_cons_True, filter_nil.
  - split_and!; try done. exists g.
    assert (g ∈ titled t gs) as Hin by (rewrite Et; left).
    apply list_elem_of_filter in Hin as [Ht Hin]. rewrite Egs.
    cbn [default from_option id]. by rewrite Et, app_nil_r.
Qed.

Lemma insert_into_students_ok (n : string) gid m marks (d : database) :
  db_ok d → room 1 (student_st d) → gid ∈ group_id <$> group_rows d →
  int_list_of m = Some marks →
  insert_into_students n gid m d =
  (Ok tt,
   set_students
     (student_rows d ++
        [{| student_id := next_value (student_st d); student_name := n;
            student_group_id := gid; student_grade := marks |}])
     (advance StudentSt d)).
Proof.
  intros [(Hsg & Hss & Hgs & Hst) (Hg & Hs & _)] Hroom Hgid Hm.
  destruct Hsg as [sg Esg], Hss as [s Es], Hgs as [gs Egs], Hst as [ss Ess].
  rewrite insert_into_students_run, Ess, Egs, Es, Hm.
  unfold group_rows, student_rows in *. rewrite Egs, Ess in *. cbn [default from_option id] in *.
  rewrite Es in Hs. rewrite Esg in Hg.
  destruct (room_in_int32 _ _ s Es ltac:(by rewrite Es) Hroom) as [-> ->].
  assert (in_int32 gid = true) as ->.
  { destruct Hg as [_ Hall]. rewrite Forall_forall in Hall.
    specialize (Hall _ Hgid).
    unfold in_int32, INT32_MIN, INT32_MAX in *.
    apply andb_true_intro. split; lia. }
  cbn [andb]. rewrite bool_decide_eq_false_2 by by apply ids_below_not_in.
  by rewrite bool_decide_eq_true_2.
Qed.

Lemma with_student_rows n t marks (d : database) :
  group_rows (with_student n t marks d) = group_rows (resolver_spec t d).2 ∧
  student_rows (with_student n t marks d) =
    student_rows (resolver_spec t d).2 ++
      [{| student_id := next_value (student_st (resolver_spec t d).2);
          student_name := n;
          student_group_id := (resolver_spec t d).1;
          student_grade := marks |}].
Proof.
  unfold with_student. destruct (resolver_spec t d) as [gid d1].
  unfold advance. cbn [get_sequence fst snd]. by destruct (student_st d1).
Qed.

Lemma with_student_ok n t marks (d : database) :
  db_ok d → (titled t (group_rows d) = [] → room 1 (group_st d)) →
  room 1 (student_st d) →
  db_ok (with_student n t marks d) ∧
  ∀ k, room (k + 1) (student_st d) →
       room k (student_st (with_student n t marks d)).
Proof.
  intros Hok Hgroom Hroom.
  destruct (resolver_spec_ok t d Hok Hgroom)
    as (Hok1 & Est & Ess & g & Hin & Hid & Ht & _).
  unfold with_student. destruct (resolver_spec t d) as [gid d1].
  cbn [fst snd] in *.
  pose proof Hok1 as [(Hsg & Hss & Hgs & Hsts) Hinv1].
  destruct Hss as [s Es], Hsts as [ss Esss].
  assert (room 1 (student_st d1)) as Hroom1 by (by rewrite Est).
  destruct (room_in_int32 _ _ s Es (proj1 (proj2 Hinv1)) Hroom1) as [_ H32].
  split.
  - split.
    + unfold schema_exists, advance. cbn [get_sequence]. rewrite Es. cbn.
      split_and!; eauto.
    + unfold student_rows. rewrite Esss, Es. cbn [default from_option id next_value].
      apply db_inv_insert_student; try done.
      apply list_elem_of_fmap. by exists g.
  - intros k. unfold advance. cbn [get_sequence]. rewrite Es. cbn.
    rewrite <- Est, Es. cbn. lia.
Qed.

Lemma add_student_str_run p (w : world) (d : database) n t m marks :
  files w !! p = Some d → db_ok d →
  (titled t (group_rows d) = [] → room 1 (group_st d)) →
  room 1 (student_st d) → int_list_of m = Some marks →
  add_student p n (PyStr t) m w =
  (Ok tt, {| files := <[p := with_student n t marks d]> (files w);
             stdout := stdout w |}).
Proof.
  intros Hp Hok Hgroom Hroom Hm. unfold add_student.
  rewrite with_connection_run, Hp. cbn [default from_option id].
  rewrite bind_run, resolve_group_str by done.
  destruct (resolver_spec_ok t d Hok Hgroom)
    as (Hok1 & Est & Ess & g & Hin & Hid & _).
  rewrite (insert_into_students_ok _ _ _ marks); try done.
  - unfold with_student.
    by destruct (resolver_spec t d).
  - by rewrite Est.
  - apply list_elem_of_fmap. by exists g.
Qed.

(** ** The two queries on a file *)

Lemma select_all_run p (w : world) (d : database) ss gs :
  files w !! p = Some d → students d = Some ss → groups d = Some gs →
  select_all p w = (Ok (to_student <$> inner_join ss gs), w).
Proof.
  intros Hp Ess Egs. unfold select_all. apply (with_connection_read _ _ _ d); [done|].
  by rewrite bind_run, select_join_run, Ess, Egs.
Qed.

Lemma select_by_grade_str_run p (w : world) (d : database) ss gs (t : string) :
  files w !! p = Some d → students d = Some ss → groups d = Some gs →
  select_by_grade p (PyStr t) w =
  (Ok (to_student <$> inner_join ss (titled t gs)), w).
Proof.
  intros Hp Ess Egs. unfold select_by_grade.
  apply (with_connection_read _ _ _ d); [done|].
  by rewrite bind_run, select_join_where_str, Ess, Egs.
Qed.

(** ** The filtered query *)

(** C3: on a file that has the two tables, [select_by_grade] with a [str]
    returns the records of [select_all] whose group is that text, and no
    others: every record returned has the text as its group, and every
    student row whose group row has the text as its title is returned. *)
Theorem select_by_grade_spec (p : string) (w : world) (d : database)
    (ss : list student_row) (gs : list group_row) (t : string) :
  files w !! p = Some d → students d = Some ss → groups d = Some gs →
  ∃ rs all,
    select_by_grade p (PyStr t) w = (Ok rs, w) ∧
    select_all p w = (Ok all, w) ∧
    rs = filter (λ r, group r = t) all ∧
    (∀ r, r ∈ rs → group r = t) ∧
    (∀ s g, s ∈ ss → g ∈ gs → group_id g = student_group_id s →
            group_title g = t →
            {| name := student_name s; group := t; grade := student_grade s |} ∈ rs).
Proof.
  intros Hp Ess Egs. eexists _, _.
  split; [by eapply select_by_grade_str_run|].
  split; [by eapply select_all_run|].
  split; [apply inner_join_titled|]. split.
  - intros r. rewrite inner_join_titled. by intros [? _]%list_elem_of_filter.
  - intros s g Hs Hg Hid Ht.
    apply (list_elem_of_fmap_2' to_student _ (student_name s, t, student_grade s));
      [|done].
    apply elem_of_inner_join. exists s, g. split_and!; try done.
    by apply list_elem_of_filter.
Qed.

Lemma select_by_grade_spec_witness :
  let w := (main "/home" (Add None (Some "Ivanov I.I.") (Some "21") (Some "[4, 5, 5]"))
              initial_world).2 in
  ∃ rs, select_by_grade "/home/students.db" (PyStr "21") w = (Ok rs, w) ∧
        rs = [{| name := "Ivanov I.I."; group := "21"; grade := [4; 5; 5] |}].
Proof.
  intros w.
  destruct (select_by_grade_spec "/home/students.db" w
              {| group_st := Some {| counter := 2; last_value := Some 1 |};
                 student_st := Some {| counter := 2; last_value := Some 1 |};
                 groups := Some [{| group_id := 1; group_title := "21" |}];
                 students := Some [{| student_id := 1; student_name := "Ivanov I.I.";
                                      student_group_id := 1;
                                      student_grade := [4; 5; 5] |}] |}
              [{| student_id := 1; student_name := "Ivanov I.I.";
                  student_group_id := 1; student_grade := [4; 5; 5] |}]
              [{| group_id := 1; group_title := "21" |}] "21")
    as (rs & all & Hrs & Hall & Hfilter & _); [reflexivity..|].
  exists rs. split; [exact Hrs|].
  rewrite Hfilter. assert (Ok all = Ok (A:=list student)
    [{| name := "Ivanov I.I."; group := "21"; grade := [4; 5; 5] |}]) as Heq.
  { transitivity (select_all "/home/students.db" w).1; [by rewrite Hall|reflexivity]. }
  injection Heq as ->. reflexivity.
Defined.

(** ** The roster after an addition *)

Lemma db_ok_tables (d : database) :
  db_ok d → students d = Some (student_rows d) ∧ groups d = Some (group_rows d).
Proof.
  intros [(_ & _ & [gs Egs] & [ss Ess]) _]. unfold student_rows, group_rows.
  by rewrite Egs, Ess.
Qed.

Lemma inner_join_with_student n t marks (d : database) :
  db_ok d → (titled t (group_rows d) = [] → room 1 (group_st d)) →
  room 1 (student_st d) →
  inner_join (student_rows (with_student n t marks d))
             (group_rows (with_student n t marks d)) =
  inner_join (student_rows d) (group_rows d) ++ [(n, t, marks)].
Proof.
  intros Hok Hgroom Hroom.
  destruct (with_student_rows n t marks d) as [-> ->].
  destruct (resolver_spec_ok t d Hok Hgroom)
    as (Hok1 & Est & Ess & g & Hin & Hid & Ht & Htitled & Hrows).
  assert (student_rows (resolver_spec t d).2 = student_rows d) as ->
    by (unfold student_rows; by rewrite Ess).
  rewrite inner_join_app. f_equal.
  - rewrite Hrows. destruct (titled t (group_rows d)) eqn:Et;
      [|by rewrite app_nil_r].
    apply inner_join_unreferenced.
    destruct Hok as [(Hsg & _) (Hg & _ & _ & Hfk)]. destruct Hsg as [s Es].
    unfold resolver_spec in Hid. rewrite Et in Hid. cbn in Hid.
    rewrite Es in Hid, Hg. cbn in Hid. destruct Hg as [_ Hall].
    rewrite Forall_forall in Hall.
    eapply Forall_impl; [exact Hfk|]. cbn. intros st (g0 & Hg0 & Hid0) Heq.
    specialize (Hall (group_id g0) ltac:(by apply list_elem_of_fmap_2)). lia.
  - destruct Hok1 as [_ (_ & _ & Hnd & _)].
    rewrite (inner_join_single _ _ g); [by rewrite Ht|done..].
Qed.

(** C2: on a file whose database has the schema and the invariant, with
    one more identifier left in each sequence, adding a student given by
    a name, a group title and a grade the engine can store makes
    [select_all] return the records it returned before and one more, the
    record of that name, title and grade (the lists are equal up to their
    order, which the engine does not fix). *)
Theorem add_then_select_all (p : string) (w : world) (d : database)
    (n t : string) (m : grade_value) (marks : list Z) :
  files w !! p = Some d → db_ok d →
  room 1 (group_st d) → room 1 (student_st d) →
  int_list_of m = Some marks →
  ∃ before after w',
    select_all p w = (Ok before, w) ∧
    add_student p n (PyStr t) m w = (Ok tt, w') ∧
    select_all p w' = (Ok after, w') ∧
    after ≡ₚ {| name := n; group := t; grade := marks |} :: before.
Proof.
  intros Hp Hok Hgroom Hroom Hm.
  destruct (db_ok_tables d Hok) as [Ess Egs].
  destruct (with_student_ok n t marks d Hok (λ _, Hgroom) Hroom) as [Hok' _].
  destruct (db_ok_tables _ Hok') as [Ess' Egs'].
  eexists _, _, _. split; [by eapply select_all_run|].
  split; [by eapply add_student_str_run|].
  split.
  - eapply select_all_run; [|done..]. cbn. apply lookup_insert_eq.
  - rewrite inner_join_with_student by done.
    rewrite fmap_app. cbn. by rewrite <- Permutation_cons_append.
Qed.

Lemma add_then_select_all_witness :
  let w := (create_db "/home/students.db" initial_world).2 in
  ∃ after w',
    (add_student "/home/students.db" "Ivanov I.I." (PyStr "IS-21")
       (GradeList [4; 5; 5]);; select_all "/home/students.db") w = (Ok after, w') ∧
    after ≡ₚ [{| name := "Ivanov I.I."; group := "IS-21"; grade := [4; 5; 5] |}].
Proof.
  intros w.
  destruct (add_then_select_all "/home/students.db" w
              (with_schema empty_database) "Ivanov I.I." "IS-21"
              (GradeList [4; 5; 5]) [4; 5; 5])
    as (before & after & w' & Hbefore & Hadd & Hafter & Hperm).
  - reflexivity.
  - split; [by repeat split; eexists|].
    unfold db_inv, references_hold. cbn.
    split_and!; try lia; constructor.
  - cbn. unfold INT32_MAX. lia.
  - cbn. unfold INT32_MAX. lia.
  - reflexivity.
  - exists after, w'. split.
    + rewrite bind_run, Hadd. exact Hafter.
    + assert (Ok before = Ok (A:=list student) []) as Heq.
      { transitivity (select_all "/home/students.db" w).1;
          [by rewrite Hbefore|reflexivity]. }
      injection Heq as ->. exact Hperm.
Defined.

(** ** The group resolver *)

(** C1: on a database that has the schema and the invariant, with one
    more identifier left for a group, the resolver does for a title what
    the specification says: the identifier of the row that has the title,
    the database unchanged; or, when no row has it, the next value of
    [group_st], with a new row of that identifier and title.  Adding two
    students with one title (at most one row having it before) leaves
    one group row of that title, and the two new student rows carry its
    identifier. *)
Theorem resolve_group_spec (title : string) (d : database) :
  db_ok d → room 1 (group_st d) →
  resolve_group (PyStr title) d =
    (Ok (resolver_spec title d).1, (resolver_spec title d).2) ∧
  ∀ p (w : world) n1 m1 marks1 n2 m2 marks2,
    files w !! p = Some d → room 2 (student_st d) →
    int_list_of m1 = Some marks1 → int_list_of m2 = Some marks2 →
    (length (titled title (group_rows d)) ≤ 1)%nat →
    ∃ w' d' g sid1 sid2,
      (add_student p n1 (PyStr title) m1;;
       add_student p n2 (PyStr title) m2) w = (Ok tt, w') ∧
      files w' !! p = Some d' ∧
      titled title (group_rows d') = [g] ∧
      student_rows d' =
        student_rows d ++
          [{| student_id := sid1; student_name := n1;
              student_group_id := group_id g; student_grade := marks1 |};
           {| student_id := sid2; student_name := n2;
              student_group_id := group_id g; student_grade := marks2 |}].
Proof.
  intros Hok Hgroom. split; [by apply resolve_group_str|].
  intros p w n1 m1 marks1 n2 m2 marks2 Hp Hroom2 Hm1 Hm2 Hlen.
  assert (room 1 (student_st d)) as Hroom1.
  { unfold room in *. destruct (student_st d); [lia|done]. }
  destruct (with_student_ok n1 title marks1 d Hok (λ _, Hgroom) Hroom1)
    as [Hok1 Hroom'].
  set (d1 := with_student n1 title marks1 d) in *.
  destruct (with_student_rows n1 title marks1 d) as [Hg1 Hs1]. fold d1 in Hg1, Hs1.
  destruct (resolver_spec_ok title d Hok (λ _, Hgroom))
    as (_ & Est & Ess & g & Hin & Hid & Ht & Htitled & Hrows).
  assert (titled title (group_rows d1) = [g] ∧
          group_id g = (resolver_spec title d).1) as [Hone Hgid].
  { rewrite Hg1, Htitled. split; [|done].
    destruct (titled title (group_rows d)) as [|g0 [|g1 rest]] eqn:Et;
      [done| |cbn in Hlen; lia].
    unfold resolver_spec in Hid. rewrite Et in Hid. cbn in Hid.
    f_equal. assert (g0 ∈ titled title (group_rows d)) as Hg0 by (rewrite Et; left).
    apply list_elem_of_filter in Hg0 as [_ Hg0].
    unfold resolver_spec in Hin, Hrows. rewrite Et in Hin, Hrows. cbn in Hin, Hrows.
    destruct Hok as [_ (_ & _ & Hnd & _)].
    pose proof (filter_group_id _ g0 Hnd Hg0) as Hf0.
    pose proof (filter_group_id _ g Hnd Hin) as Hf.
    rewrite Hid in Hf. rewrite Hf0 in Hf. by simplify_eq. }
  assert (titled title (group_rows d1) = [] → room 1 (group_st d1)) as Hgroom1
    by (by rewrite Hone).
  assert (room 1 (student_st d1)) as Hroom1' by (apply Hroom'; exact Hroom2).
  destruct (with_student_rows n2 title marks2 d1) as [Hg2 Hs2].
  assert (resolver_spec title d1 = (group_id g, d1)) as Hres.
  { unfold resolver_spec. by rewrite Hone. }
  rewrite Hres in Hg2, Hs2. cbn [fst snd] in Hg2, Hs2.
  eexists _, (with_student n2 title marks2 d1), g, _, _. split_and!.
  - rewrite bind_run.
    rewrite (add_student_str_run p w d n1 title m1 marks1) by done.
    apply (add_student_str_run p _ d1 n2 title m2 marks2); try done.
    cbn. apply lookup_insert_eq.
  - cbn. by rewrite insert_insert_eq, lookup_insert_eq.
  - by rewrite Hg2.
  - rewrite Hs2, Hs1, <- Hgid, <- app_assoc.
    unfold student_rows. by rewrite Ess.
Qed.

Lemma resolve_group_spec_witness :
  let d := with_schema empty_database in
  let w := (create_db "/home/students.db" initial_world).2 in
  resolve_group (PyStr "IS-21") d =
    (Ok 1, set_groups [{| group_id := 1; group_title := "IS-21" |}]
                      (advance GroupSt d)) ∧
  ∃ w' d' g,
    (add_student "/home/students.db" "Ivanov I.I." (PyStr "IS-21") (GradeList [4; 5; 5]);;
     add_student "/home/students.db" "Petrov P.P." (PyStr "IS-21") (GradeStr "[3, 4]")) w
      = (Ok tt, w') ∧
    files w' !! "/home/students.db" = Some d' ∧
    titled "IS-21" (group_rows d') = [g] ∧
    (student_group_id <$> student_rows d') = [group_id g; group_id g].
Proof.
  intros d w.
  assert (db_ok d) as Hok.
  { split; [by repeat split; eexists|].
    unfold db_inv, references_hold. cbn. split_and!; try lia; constructor. }
  assert (room 1 (group_st d)) as Hroom by (cbn; unfold INT32_MAX; lia).
  destruct (resolve_group_spec "IS-21" d Hok Hroom) as [Hres Htwo].
  split; [exact Hres|].
  destruct (Htwo "/home/students.db" w "Ivanov I.I." (GradeList [4; 5; 5]) [4; 5; 5]
              "Petrov P.P." (GradeStr "[3, 4]") [3; 4])
    as (w' & d' & g & sid1 & sid2 & Hrun & Hfile & Hone & Hrows).
  - reflexivity.
  - cbn. unfold INT32_MAX. lia.
  - reflexivity.
  - reflexivity.
  - cbn. lia.
  - exists w', d', g. split_and!; [exact Hrun|exact Hfile|exact Hone|].
    by rewrite Hrows.
Defined.

(** ** The table *)

Lemma py_len_app (a b : string) : py_len (a +:+ b) = (py_len a + py_len b)%nat.
Proof.
  induction a as [|c a IH]; [done|].
  change (String c a +:+ b) with (String c (a +:+ b)). cbn [py_len].
  rewrite IH. by destruct (is_continuation c).
Qed.

Lemma py_len_spaces (n : nat) : py_len (spaces n) = n.
Proof. induction n as [|n IH]; [done|]. cbn. by rewrite IH. Qed.

Lemma py_format_right (width : nat) (text : string) :
  right_aligned width text (py_format AlignRight width text).
Proof.
  exists (width - py_len text)%nat. split; [done|].
  cbn. rewrite py_len_app, py_len_spaces. lia.
Qed.

Lemma py_format_left (width : nat) (text : string) :
  left_aligned width text (py_format AlignLeft width text).
Proof.
  exists (width - py_len text)%nat. split; [done|].
  cbn. rewrite py_len_app, py_len_spaces. lia.
Qed.

Lemma enumerate_lookup {A} (l : list A) (start : Z) (i : nat) :
  enumerate l start !! i = (λ x, (start + Z.of_nat i, x)) <$> l !! i.
Proof.
  revert start i. induction l as [|x l IH]; intros start [|i]; cbn; try done.
  - by rewrite Z.add_0_r.
  - rewrite IH. destruct (l !! i); cbn; [|done]. do 2 f_equal. lia.
Qed.

Lemma enumerate_length {A} (l : list A) (start : Z) :
  length (enumerate l start) = length l.
Proof. revert start. induction l as [|x l IH]; intros start; cbn; by rewrite ?IH. Qed.

(** C5: for an empty list [display_students] prints the one line
    "Список студентов пуст." and nothing else.  For a list that is not
    empty it prints the border, the head, the border, one row per student
    and the border; the row of the student at position [i] (from 0) has,
    between the bars, the number [i + 1] right-aligned in 4, the name
    left-aligned in 30, the group left-aligned in 20 and the grades, joined
    by ", ", right-aligned in 15. *)
Theorem display_students_spec (w : world) :
  display_students [] w =
    (Ok tt, {| files := files w;
               stdout := stdout w ++ ["Список студентов пуст."] |}) ∧
  table_line =
    "+------+--------------------------------+----------------------+-----------------+" ∧
  ∀ s staff, ∃ rows,
    display_students (s :: staff) w =
      (Ok tt, {| files := files w;
                 stdout := stdout w ++ [table_line; table_head; table_line]
                                    ++ rows ++ [table_line] |}) ∧
    length rows = length (s :: staff) ∧
    ∀ (i : nat) (st : student), (s :: staff) !! i = Some st →
      ∃ f1 f2 f3 f4,
        rows !! i = Some ("| " +:+ f1 +:+ " | " +:+ f2 +:+ " | " +:+ f3
                               +:+ " | " +:+ f4 +:+ " |") ∧
        right_aligned 4 (py_str (Z.of_nat i + 1)) f1 ∧
        left_aligned 30 (name st) f2 ∧
        left_aligned 20 (group st) f3 ∧
        right_aligned 15 (py_join ", " (py_str <$> grade st)) f4.
Proof.
  split; [by rewrite display_students_run|]. split; [reflexivity|].
  intros s staff.
  exists ((λ '(idx, s), table_row idx s) <$> enumerate (s :: staff) 1).
  split; [by rewrite display_students_run|].
  split; [by rewrite length_fmap, enumerate_length|].
  intros i st Hi. eexists _, _, _, _. split.
  - rewrite list_lookup_fmap, enumerate_lookup, Hi. cbn.
    rewrite (Z.add_comm 1). reflexivity.
  - split_and!; [apply py_format_right|apply py_format_left..|apply py_format_right].
Qed.

(** ** The references of the students *)

(** C7: in every world reached by calls of the program, in every file,
    every student row has the identifier of a group row of that file; and
    from such a world no call of [add_student] fails on the foreign key,
    since the identifier it inserts is the one of the row it found or has
    just inserted. *)
Theorem references_always_hold (w : world) :
  reachable w →
  (∀ p d, files w !! p = Some d → references_hold d) ∧
  (∀ p n v m,
     (add_student p n v m w).1 ≠ Raise (ConstraintException ForeignKey)).
Proof.
  intros Hreach. split.
  - intros p d Hp. by apply (reachable_inv w Hreach p d Hp).
  - intros p n v m. unfold add_student. rewrite with_connection_run.
    apply add_student_body_no_fk.
Qed.

Lemma references_always_hold_witness :
  let w := run_calls
             [CallMain "/home" (Add None (Some "Ivanov I.I.") (Some "21") (Some "[4, 5, 5]"));
              CallAddStudent "/home/students.db" "Petrov P.P." (PyStr "IS-21")
                             (GradeList [3; 4])]
             initial_world in
  reachable w ∧
  ∃ d, files w !! "/home/students.db" = Some d ∧
       (student_group_id <$> student_rows d) = [1; 2] ∧
       (group_id <$> group_rows d) = [1; 2] ∧
       references_hold d.
Proof.
  intros w.
  assert (reachable w) as Hreach by (eexists; reflexivity).
  split; [exact Hreach|].
  destruct (references_always_hold w Hreach) as [Hrefs _].
  eexists. split; [reflexivity|]. split; [reflexivity|]. split; [reflexivity|].
  apply (Hrefs "/home/students.db"). reflexivity.
Defined.

(** ** Runs that end in an exception *)

(** C4: without a subcommand the namespace has no [db]; [main] raises
    [AttributeError] on [args.db], before [create_db]: no file is created
    or changed, nothing is printed, and the exit status is 1. *)
Theorem main_no_command (cwd : string) (w : world) :
  main cwd NoCommand w = (Raise (AttributeError "db"), w) ∧
  exit_status (main cwd NoCommand w).1 = 1.
Proof. done. Qed.

Lemma add_student_none_run p n m (w : world) :
  ∃ e w', (create_db p;; add_student p n PyNone m) w = (Raise e, w') ∧
          (e = SequenceException ∨ e = ConversionException ∨
           e = ConstraintException NotNull) ∧
          ∃ d, files w' !! p = Some d ∧ schema_exists d.
Proof.
  rewrite bind_run, create_db_run. unfold add_student.
  rewrite with_connection_run. cbn [files stdout fst snd].
  rewrite lookup_insert_eq. cbn [default from_option id].
  set (d := with_schema _).
  rewrite bind_run, resolve_group_run. cbn [groups d with_schema].
  rewrite where_title_none. cbn [fst].
  rewrite insert_into_groups_run. cbn [groups group_st d with_schema].
  set (s := default _ _).
  assert (schema_exists d) as Hd by (cbn; by repeat split).
  assert (schema_exists (advance GroupSt d)) as Hadv by (cbn; by repeat split).
  destruct (counter s <? INT64_MAX);
    [destruct (in_int32 (counter s))|]; cbn [bind_text];
    eexists _, _; (split; [reflexivity|]); (split; [eauto|]);
    cbn [files]; rewrite insert_insert_eq, lookup_insert_eq; eexists;
    (split; [reflexivity|]); assumption.
Qed.

(** C6: [--name] and [--grade] are required, and a command line without
    one of them ends in the parser with the world as it was.  [--group]
    is not: a command line without it passes the parser, [create_db] runs,
    and [add_student] is called with [None]; the run ends in an exception
    of the engine, with exit status 1 and the schema in the file. *)
Theorem add_without_group (cwd : string) (db : option string) (n m : string)
    (w : world) :
  (∀ grade,
     main cwd (Add db None None grade) w =
     (Raise (ParserError (RequiredMissing
               ("-n/--name" :: missing "-gr/--grade" grade))), w)) ∧
  (∀ name,
     main cwd (Add db name None None) w =
     (Raise (ParserError (RequiredMissing
               (missing "-n/--name" name ++ ["-gr/--grade"]))), w)) ∧
  main cwd (Add db (Some n) None (Some m)) w =
    (create_db (default (default_db cwd) db);;
     add_student (default (default_db cwd) db) n PyNone (GradeStr m)) w ∧
  exit_status (main cwd (Add db (Some n) None (Some m)) w).1 = 1 ∧
  ∃ d, files (main cwd (Add db (Some n) None (Some m)) w).2
         !! default (default_db cwd) db = Some d ∧ schema_exists d.
Proof.
  split; [done|]. split; [by intros [?|]|]. split; [done|].
  change (main cwd (Add db (Some n) None (Some m)) w)
    with ((create_db (default (default_db cwd) db);;
           add_student (default (default_db cwd) db) n PyNone (GradeStr m)) w).
  destruct (add_student_none_run (default (default_db cwd) db) n (GradeStr m) w)
    as (e & w' & -> & He & Hd).
  split; [|done]. by destruct He as [->|[->| ->]].
Qed.

(** The run of [add] without [--group] on a machine without the file. *)
Example no_group_run :
  let r := main "/home" (Add None (Some "Ivanov I.I.") None (Some "[4, 5, 5]"))
                initial_world in
  r.1 = Raise (ConstraintException NotNull) ∧
  group_rows <$> files r.2 !! "/home/students.db" = Some [] ∧
  student_rows <$> files r.2 !! "/home/students.db" = Some [].
Proof. repeat split; reflexivity. Qed.

(** C8: what [main] hands to [add_student] as the grade is the text of
    [--grade], not a list.  With the grade 5 the engine cannot make an
    INT[] of the text "5": the run ends in a conversion error, the group
    is in the file and the student is not.  A text in the syntax of a list
    is stored as the list it denotes, like the list itself. *)
Theorem add_grade_is_text :
  (∀ cwd db n m w,
     main cwd (Add db (Some n) (Some "21") (Some m)) w =
     (create_db (default (default_db cwd) db);;
      add_student (default (default_db cwd) db) n (PyInt 21) (GradeStr m)) w) ∧
  (let r := main "/home" (Add None (Some "Ivanov I.I.") (Some "21") (Some "5"))
                 initial_world in
   r.1 = Raise ConversionException ∧
   exit_status r.1 = 1 ∧
   group_rows <$> files r.2 !! "/home/students.db" =
     Some [{| group_id := 1; group_title := "21" |}] ∧
   student_rows <$> files r.2 !! "/home/students.db" = Some []) ∧
  (let r := main "/home"
                 (Add None (Some "Ivanov I.I.") (Some "21") (Some "[4, 5, 5]"))
                 initial_world in
   r.1 = Ok tt ∧
   student_rows <$> files r.2 !! "/home/students.db" =
     Some [{| student_id := 1; student_name := "Ivanov I.I.";
              student_group_id := 1; student_grade := [4; 5; 5] |}]).
Proof. split; [done|]. repeat split; reflexivity. Qed.

(** ** The schema *)

(** C9: calling [create_db] twice in a row on the same file raises
    nothing, and the second call leaves the file, its tables and its
    sequences exactly as the first call left them. *)
Theorem create_db_idempotent (p : string) (w : world) :
  (create_db p w).1 = Ok tt ∧
  create_db p (create_db p w).2 = (Ok tt, (create_db p w).2) ∧
  (create_db p;; create_db p) w = create_db p w.
Proof.
  rewrite bind_run, !create_db_run. cbn [fst snd files stdout].
  by rewrite lookup_insert_eq, insert_insert_eq.
Qed.


(** ** Runs *)

(** The table of one student. *)
Example table_of_one_student :
  stdout (display_students
            [{| name := "Ivanov I.I."; group := "IS-21"; grade := [4; 5; 5] |}]
            initial_world).2 =
  ["+------+--------------------------------+----------------------+-----------------+";
   "|  №   |             Ф.И.О.             |        Группа        |  Успеваемость   |";
   "+------+--------------------------------+----------------------+-----------------+";
   "|    1 | Ivanov I.I.                    | IS-21                |         4, 5, 5 |";
   "+------+--------------------------------+----------------------+-----------------+"].
Proof. reflexivity. Qed.

(** Two runs of [add] with the same [--group], then [select]. *)
Example two_students_of_group_21 :
  let w1 := (main "/home" (Add None (Some "Ivanov I.I.") (Some "21") (Some "[4, 5, 5]"))
                  initial_world).2 in
  let w2 := (main "/home" (Add None (Some "Petrov P.P.") (Some " 21") (Some "[3]"))
                  w1).2 in
  group_rows <$> files w2 !! "/home/students.db" =
    Some [{| group_id := 1; group_title := "21" |}] ∧
  (fmap student_group_id ∘ student_rows) <$> files w2 !! "/home/students.db" =
    Some [1; 1] ∧
  stdout (main "/home" (Select None (Some "21")) w2).2 =
  ["+------+--------------------------------+----------------------+-----------------+";
   "|  №   |             Ф.И.О.             |        Группа        |  Успеваемость   |";
   "+------+--------------------------------+----------------------+-----------------+";
   "|    1 | Ivanov I.I.                    | 21                   |         4, 5, 5 |";
   "|    2 | Petrov P.P.                    | 21                   |               3 |";
   "+------+--------------------------------+----------------------+-----------------+"].
Proof. repeat split; reflexivity. Qed.

(** ** The outcomes of [add_student] *)

Lemma rows_advance (n : sequence_name) (d : database) :
  groups (advance n d) = groups d ∧ students (advance n d) = students d ∧
  (n = GroupSt → student_st (advance n d) = student_st d) ∧
  (n = StudentSt → group_st (advance n d) = group_st d).
Proof.
  unfold advance. destruct n; cbn [get_sequence].
  - by destruct (group_st d).
  - by destruct (student_st d).
Qed.

(** Whatever its arguments, the body first leaves the groups as they
    are, or only takes a value of [group_st], or appends one group with
    the next identifier; then it leaves the students as they are, or only
    takes a value of [student_st], or returns with one student appended. *)
Lemma add_body_cases n v m (d : database) :
  ∃ dg,
    (dg = d ∨ dg = advance GroupSt d ∨
     (∃ gs s t,
        groups d = Some gs ∧ group_st d = Some s ∧ bind_text v = Some t ∧
        (where_title v gs d).1 = Ok [] ∧ in_int32 (counter s) = true ∧
        (counter s ∉ group_id <$> gs) ∧
        dg = set_groups (gs ++ [{| group_id := counter s; group_title := t |}])
                        (advance GroupSt d))) ∧
    ((∃ e, (add_body n v m d).1 = Raise e ∧
           ((add_body n v m d).2 = dg ∨ (add_body n v m d).2 = advance StudentSt dg)) ∨
     ((add_body n v m d).1 = Ok tt ∧
      (∃ ss s gid marks,
        students dg = Some ss ∧ student_st dg = Some s ∧
        int_list_of m = Some marks ∧ gid ∈ group_id <$> group_rows dg ∧
        in_int32 (counter s) = true ∧ (counter s ∉ student_id <$> ss) ∧
        (add_body n v m d).2 =
          set_students
            (ss ++ [{| student_id := counter s; student_name := n;
                       student_group_id := gid; student_grade := marks |}])
            (advance StudentSt dg)))).
Proof.
  unfold add_body. rewrite bind_run.
  destruct (resolve_group v d) as [[gid|e] dg] eqn:Eres.
  - exists dg. split.
    + revert Eres. rewrite resolve_group_run.
      destruct (groups d) as [gs|] eqn:Egs; [|done].
      destruct (where_title_sub v gs d) as (r & Hr & _). rewrite Hr. cbn [fst].
      destruct r as [[|g rows]|e]; [| |done].
      * destruct (insert_into_groups v d) as [[u|e] d1] eqn:E; [|done].
        pose proof E as E'.
        apply insert_into_groups_ok in E as (s & gs' & t & Es & Egs' & Ht & ->).
        rewrite (currval_after_insert _ s) by done. intros ?; simplify_eq.
        right. right. exists gs, s, t. split_and!; try done.
        -- by rewrite Hr.
        -- revert E'. rewrite insert_into_groups_run, Egs, Es.
           destruct (counter s <? INT64_MAX); [|done].
           by destruct (in_int32 (counter s)).
        -- revert E'. rewrite insert_into_groups_run, Egs, Es, Ht.
           destruct (counter s <? INT64_MAX); [|done].
           destruct (in_int32 (counter s)); [|done].
           by case_bool_decide.
      * intros ?; simplify_eq. by left.
    + apply resolve_group_in in Eres. rewrite insert_into_students_run.
      destruct (students dg) as [ss|] eqn:Ess; [|left; eauto].
      destruct (groups dg) as [gs|] eqn:Egs; [|left; eauto].
      destruct (student_st dg) as [s|] eqn:Es; [|left; eauto].
      destruct (counter s <? INT64_MAX); [|left; eauto].
      destruct (in_int32 (counter s)) eqn:E32; [|left; eauto].
      destruct (in_int32 gid); [|left; eauto]. cbn [andb].
      destruct (int_list_of m) as [marks|]; [|left; eauto].
      case_bool_decide; [left; eauto|].
      case_bool_decide; [|left; eauto].
      right. split; [done|]. by exists ss, s, gid, marks.
  - exists dg. split; [|left; eauto].
    revert Eres. rewrite resolve_group_run.
    destruct (groups d) as [gs|] eqn:Egs; [|by intros ?; simplify_eq; left].
    destruct (where_title_sub v gs d) as (r & Hr & _). rewrite Hr. cbn [fst].
    destruct r as [[|g rows]|e']; [|done|by intros ?; simplify_eq; left].
    destruct (insert_into_groups v d) as [[u|e1] d1] eqn:E.
    + apply insert_into_groups_ok in E as (s & gs' & t & Es & Egs' & _ & ->).
      by rewrite (currval_after_insert _ s).
    + intros ?; simplify_eq. revert E. rewrite insert_into_groups_run, Egs.
      destruct (group_st d) as [s|]; [|by intros ?; simplify_eq; left].
      repeat case_match; intros ?; simplify_eq; auto.
Qed.

(** ** Relations along a run *)

Lemma advances_bind {S A B} (R : S → S → Prop) `{!Transitive R}
    (m : M S A) (f : A → M S B) :
  advances R m → (∀ a, advances R (f a)) → advances R (m ≫= f).
Proof.
  intros Hm Hf s. rewrite bind_run. specialize (Hm s).
  destruct (m s) as [[a|e] s']; [|done]. cbn in Hm. etrans; [exact Hm|apply Hf].
Qed.

Lemma advances_ret {S A} (R : S → S → Prop) `{!Reflexive R} (a : A) :
  advances R (mret a).
Proof. by intros s. Qed.

Lemma advances_raise {S A} (R : S → S → Prop) `{!Reflexive R} e :
  advances R (raise e : M S A).
Proof. by intros s. Qed.

Lemma advances_for_each {S A} (R : S → S → Prop)
    `{!Reflexive R, !Transitive R} (l : list A) (body : A → M S unit) :
  (∀ x, advances R (body x)) → advances R (for_each l body).
Proof.
  intros Hbody. induction l as [|x l IH]; [by apply advances_ret|].
  cbn [for_each]. by apply advances_bind.
Qed.

Lemma display_students_advances (R : world → world → Prop)
    `{!Reflexive R, !Transitive R} (staff : list student) :
  (∀ text, advances R (print text)) → advances R (display_students staff).
Proof.
  intros Hprint. destruct staff as [|s staff]; [apply Hprint|].
  unfold display_students.
  repeat (apply advances_bind; [done|apply Hprint|intros _]).
  apply advances_bind; [done| |intros _; apply Hprint].
  apply advances_for_each; try done. by intros [idx st].
Qed.

(** [main] by subcommand. *)
Lemma main_add_run cwd db name group grade (w : world) :
  main cwd (Add db name group grade) w =
  match match group with
        | None => Some PyNone
        | Some text => PyInt <$> py_int text
        end with
  | None =>
      (Raise (ParserError (InvalidIntValue "-g/--group" (default "" group))), w)
  | Some v =>
      match name, grade with
      | Some n, Some m =>
          (create_db (default (default_db cwd) db);;
           add_student (default (default_db cwd) db) n v (GradeStr m)) w
      | _, _ =>
          (Raise (ParserError (RequiredMissing
                    (missing "-n/--name" name ++ missing "-gr/--grade" grade))), w)
      end
  end.
Proof.
  unfold main, parse_args, convert_group.
  destruct group as [text|]; [destruct (py_int text)|];
    by destruct name, grade.
Qed.

Lemma main_display_run cwd db (w : world) :
  main cwd (Display db) w =
  (create_db (default (default_db cwd) db);;
   staff ← select_all (default (default_db cwd) db);
   display_students staff) w.
Proof. reflexivity. Qed.

Lemma main_select_run cwd db (sel : string) (w : world) :
  main cwd (Select db (Some sel)) w =
  (create_db (default (default_db cwd) db);;
   staff ← select_by_grade (default (default_db cwd) db) (PyStr sel);
   display_students staff) w.
Proof. reflexivity. Qed.

(** [main] moves the world along any preorder its five callees move it
    along; what it passes to [add_student] as the group is never a
    [str]. *)
Lemma main_advances (R : world → world → Prop)
    `{!Reflexive R, !Transitive R} cwd argv :
  (∀ text, advances R (print text)) →
  (∀ p, advances R (create_db p)) →
  (∀ p n v m, (∀ s, v ≠ PyStr s) → advances R (add_student p n v m)) →
  (∀ p, advances R (select_all p)) →
  (∀ p v, advances R (select_by_grade p v)) →
  advances R (main cwd argv).
Proof.
  intros Hprint Hcreate Hadd Hall Hsel w.
  destruct argv as [| |db n g m|db|db sel].
  - done.
  - apply Hprint.
  - rewrite main_add_run.
    assert (∀ v, (∀ s, v ≠ PyStr s) →
              R w (match n, m with
                   | Some n', Some m' =>
                       (create_db (default (default_db cwd) db);;
                        add_student (default (default_db cwd) db) n' v (GradeStr m')) w
                   | _, _ =>
                       (Raise (ParserError (RequiredMissing
                          (missing "-n/--name" n ++ missing "-gr/--grade" m))), w)
                   end).2) as Hv.
    { intros v Hv. destruct n as [n'|], m as [m'|]; try done.
      apply (advances_bind R); [apply Hcreate|]. intros _. by apply Hadd. }
    destruct g as [text|]; [destruct (py_int text) as [z|]|]; cbn [fmap option_fmap option_map];
      [by apply Hv|done|by apply Hv].
  - rewrite main_display_run.
    apply (advances_bind R); [apply Hcreate|]. intros _.
    apply (advances_bind R); [apply Hall|]. intros staff.
    by apply display_students_advances.
  - destruct sel as [sel|]; [|done]. rewrite main_select_run.
    apply (advances_bind R); [apply Hcreate|]. intros _.
    apply (advances_bind R); [apply Hsel|]. intros staff.
    by apply display_students_advances.
Qed.

Lemma run_call_advances (R : world → world → Prop)
    `{!Reflexive R, !Transitive R} (c : call) (w : world) :
  (∀ text, advances R (print text)) →
  (∀ p, advances R (create_db p)) →
  (∀ p n v m, advances R (add_student p n v m)) →
  (∀ p, advances R (select_all p)) →
  (∀ p v, advances R (select_by_grade p v)) →
  R w (run_call c w).
Proof.
  intros Hprint Hcreate Hadd Hall Hsel. destruct c; cbn.
  - apply Hcreate.
  - apply Hadd.
  - apply Hall.
  - apply Hsel.
  - by apply display_students_advances.
  - apply main_advances; auto.
Qed.

(** ** Nothing is taken away *)

Global Instance seq_le_refl : Reflexive seq_le.
Proof. intros [s|]; cbn; [|done]. by exists s. Qed.

Global Instance seq_le_trans : Transitive seq_le.
Proof.
  intros [a|] b c; cbn; [|done]. intros (b' & -> & Hab). cbn.
  intros (c' & -> & Hbc). exists c'. split; [done|lia].
Qed.

Global Instance table_le_refl {A} : Reflexive (@table_le A).
Proof. intros [l|]; cbn; [|done]. by exists l. Qed.

Global Instance table_le_trans {A} : Transitive (@table_le A).
Proof.
  intros [a|] b c; cbn; [|done]. intros (b' & -> & Hab). cbn.
  intros (c' & -> & Hbc). exists c'. split; [done|by etrans].
Qed.

Global Instance extends_refl : Reflexive extends.
Proof. intros d. by repeat split. Qed.

Global Instance extends_trans : Transitive extends.
Proof.
  intros a b c (H1 & H2 & H3 & H4) (H1' & H2' & H3' & H4').
  split_and!; by etrans.
Qed.

Global Instance world_extends_refl : Reflexive world_extends.
Proof. intros w. split; [|done]. intros p d Hp. by exists d. Qed.

Global Instance world_extends_trans : Transitive world_extends.
Proof.
  intros a b c [Hab Hab'] [Hbc Hbc']. split; [|by etrans].
  intros p d Hp. destruct (Hab p d Hp) as (d1 & Hp1 & H1).
  destruct (Hbc p d1 Hp1) as (d2 & Hp2 & H2). exists d2. split; [done|by etrans].
Qed.

Lemma extends_advance (n : sequence_name) (d : database) : extends d (advance n d).
Proof.
  unfold advance. destruct n; cbn [get_sequence].
  - destruct (group_st d) as [s|] eqn:E; [|done].
    split_and!; cbn; try done. rewrite E. cbn. eexists. split; [done|]. cbn. lia.
  - destruct (student_st d) as [s|] eqn:E; [|done].
    split_and!; cbn; try done. rewrite E. cbn. eexists. split; [done|]. cbn. lia.
Qed.

Lemma extends_set_groups (d : database) gs l :
  groups d = Some gs → extends d (set_groups (gs ++ l) d).
Proof.
  intros E. split_and!; cbn; try done. rewrite E. cbn. eexists. split; [done|].
  by apply prefix_app_r.
Qed.

Lemma extends_set_students (d : database) ss l :
  students d = Some ss → extends d (set_students (ss ++ l) d).
Proof.
  intros E. split_and!; cbn; try done. rewrite E. cbn. eexists. split; [done|].
  by apply prefix_app_r.
Qed.

Lemma extends_with_schema (d : database) : extends d (with_schema d).
Proof.
  split_and!; cbn.
  - destruct (group_st d) as [s|]; cbn; [|done]. by exists s.
  - destruct (student_st d) as [s|]; cbn; [|done]. by exists s.
  - unfold group_rows. destruct (groups d) as [l|]; cbn; [|done]. by exists l.
  - unfold student_rows. destruct (students d) as [l|]; cbn; [|done]. by exists l.
Qed.

Lemma add_body_extends n v m (d : database) : extends d (add_body n v m d).2.
Proof.
  destruct (add_body_cases n v m d) as (dg & Hg & Hs).
  assert (extends d dg) as Hdg.
  { destruct Hg as [->|[->|(gs & s & t & Egs & Es & _ & _ & _ & _ & ->)]];
      [done|apply extends_advance|].
    etrans; [apply (extends_advance GroupSt)|].
    apply extends_set_groups. by destruct (rows_advance GroupSt d) as (-> & _). }
  etrans; [exact Hdg|].
  destruct Hs as [(e & _ & [->| ->])|(_ & ss & s & gid & marks & Ess & _ & _ & _ & _ & _ & ->)];
    [done|apply extends_advance|].
  etrans; [apply (extends_advance StudentSt)|].
  apply extends_set_students. by destruct (rows_advance StudentSt dg) as (_ & -> & _).
Qed.

Lemma with_connection_extends {A} (p : string) (body : Db A) :
  (∀ d, extends d (body d).2) → advances world_extends (with_connection p body).
Proof.
  intros Hbody w. rewrite with_connection_run. split; [|done].
  intros q d Hq. cbn [snd files]. rewrite lookup_insert. case_decide.
  - subst q. rewrite Hq. cbn. eexists. split; [done|]. apply Hbody.
  - by exists d.
Qed.

Lemma print_extends (text : string) : advances world_extends (print text).
Proof.
  intros w. split; [|by apply prefix_app_r]. intros p d Hp. by exists d.
Qed.

Lemma create_db_extends p : advances world_extends (create_db p).
Proof.
  apply with_connection_extends. intros d. rewrite create_db_body_run.
  apply extends_with_schema.
Qed.

Lemma add_student_extends p n v m : advances world_extends (add_student p n v m).
Proof. apply with_connection_extends. intros d. apply add_body_extends. Qed.

Lemma select_all_extends p : advances world_extends (select_all p).
Proof.
  apply with_connection_extends. intros d. rewrite bind_run, select_join_run.
  by destruct (students d), (groups d).
Qed.

Lemma select_by_grade_extends p v : advances world_extends (select_by_grade p v).
Proof.
  apply with_connection_extends. intros d. rewrite bind_run.
  pose proof (select_join_where_state v d) as H.
  destruct (select_join_where v d) as [[rows|e] d']; cbn in *; by subst.
Qed.

(** X1: no call of the program, with any arguments, and no run of [main]
    takes anything away: along any sequence of calls every file stays,
    every sequence and table in it stays, the rows of a table stay where
    they were (new rows come after them), no sequence goes back, and what
    was printed stays printed. *)
Theorem calls_only_append (cs : list call) (w : world) :
  world_extends w (run_calls cs w).
Proof.
  revert w. induction cs as [|c cs IH]; intros w; [done|].
  cbn. etrans; [|apply IH].
  apply run_call_advances; try apply _;
    auto using print_extends, create_db_extends, add_student_extends,
      select_all_extends, select_by_grade_extends.
Qed.

(** ** One call of [add_student] *)

Lemma resolve_group_cases (v : pyval) (d : database) :
  match resolve_group v d with
  | (Ok gid, dg) =>
      (dg = d ∧ gid ∈ group_id <$> group_rows d) ∨
      (∃ gs s t,
         groups d = Some gs ∧ group_st d = Some s ∧ bind_text v = Some t ∧
         gid = counter s ∧
         dg = set_groups (gs ++ [{| group_id := counter s; group_title := t |}])
                         (advance GroupSt d))
  | (Raise e, dg) => dg = d ∨ dg = advance GroupSt d
  end.
Proof.
  rewrite resolve_group_run.
  destruct (groups d) as [gs|] eqn:Egs; [|by left].
  destruct (where_title_sub v gs d) as (r & Hr & Hsub). rewrite Hr. cbn [fst].
  destruct r as [[|g rows]|e]; [| |by left].
  - destruct (insert_into_groups v d) as [[u|e] d1] eqn:E.
    + apply insert_into_groups_ok in E as (s & gs' & t & Es & Egs' & Ht & ->).
      rewrite (currval_after_insert _ s) by done. right.
      exists gs, s, t. by simplify_eq.
    + revert E. rewrite insert_into_groups_run, Egs.
      destruct (group_st d) as [s|]; [|by intros ?; simplify_eq; left].
      repeat case_match; intros ?; simplify_eq; auto.
  - left. split; [done|]. unfold group_rows. rewrite Egs. cbn.
    apply list_elem_of_fmap. exists g. split; [done|]. apply Hsub. left.
Qed.

(** What a call does to the file, by its outcome. *)
Lemma add_body_outcome (p n : string) (v : pyval) (m : grade_value)
    (w : world) :
  ∃ d',
    files (add_student p n v m w).2 !! p = Some d' ∧
    let d := default empty_database (files w !! p) in
    let grown :=
      group_rows d' = group_rows d ∨
      (∃ t, bind_text v = Some t ∧
            group_rows d' =
              group_rows d ++ [{| group_id := next_value (group_st d);
                                  group_title := t |}]) in
    match (add_student p n v m w).1 with
    | Ok _ =>
        ∃ gid marks,
          int_list_of m = Some marks ∧
          student_rows d' =
            student_rows d ++
              [{| student_id := next_value (student_st d); student_name := n;
                  student_group_id := gid; student_grade := marks |}] ∧
          ((group_rows d' = group_rows d ∧ gid ∈ group_id <$> group_rows d) ∨
           (∃ t, bind_text v = Some t ∧ gid = next_value (group_st d) ∧
                 group_rows d' =
                   group_rows d ++ [{| group_id := gid; group_title := t |}]))
    | Raise _ => students d' = students d ∧ grown
    end.
Proof.
  unfold add_student. rewrite with_connection_run. cbn [fst snd files].
  eexists. split; [apply lookup_insert_eq|].
  set (d := default empty_database (files w !! p)). cbn zeta.
  rewrite bind_run. pose proof (resolve_group_cases v d) as Hres.
  destruct (resolve_group v d) as [[gid|e] dg].
  - assert (students dg = students d ∧ student_st dg = student_st d ∧
            (group_rows dg = group_rows d ∨
             ∃ t, bind_text v = Some t ∧ gid = next_value (group_st d) ∧
                  group_rows dg =
                    group_rows d ++ [{| group_id := gid; group_title := t |}]))
      as (Ess & Est & Hgrown).
    { destruct Hres as [[-> _]|(gs & s & t & Egs & Es & Ht & -> & ->)]; [by auto|].
      destruct (rows_advance GroupSt d) as (_ & Hss & Hst & _).
      cbn. rewrite Hss, Hst by done. split_and!; try done.
      right. exists t. unfold group_rows. rewrite Egs, Es. by cbn. }
    rewrite insert_into_students_run, Ess, Est.
    assert (students (advance StudentSt dg) = students d ∧
            group_rows (advance StudentSt dg) = group_rows dg) as [Ha1 Ha2].
    { destruct (rows_advance StudentSt dg) as (Hg & Hs & _).
      unfold group_rows. by rewrite Hg, Hs. }
    assert (group_rows dg = group_rows d ∨
            ∃ t, bind_text v = Some t ∧
                 group_rows dg =
                   group_rows d ++ [{| group_id := next_value (group_st d);
                                       group_title := t |}]) as Hgrown'.
    { destruct Hgrown as [?|(t & ? & -> & ?)]; eauto. }
    destruct (students d) as [ss|] eqn:Ess'; [|by cbn].
    destruct (groups dg) as [gs|] eqn:Egs; [|by cbn].
    destruct (student_st d) as [s|] eqn:Es; [|by cbn].
    destruct (counter s <? INT64_MAX); [|by cbn].
    destruct (in_int32 (counter s) && in_int32 gid);
      [|cbn [fst snd]; by rewrite Ha1, Ha2].
    destruct (int_list_of m) as [marks|]; [|cbn [fst snd]; by rewrite Ha1, Ha2].
    case_bool_decide; [cbn [fst snd]; by rewrite Ha1, Ha2|].
    case_bool_decide as Hgid; [|cbn [fst snd]; by rewrite Ha1, Ha2].
    cbn [fst snd]. exists gid, marks. split; [done|].
    split; [unfold student_rows; cbn; by rewrite Ess'|].
    change (group_rows (set_students _ (advance StudentSt dg)))
      with (group_rows (advance StudentSt dg)). rewrite Ha2.
    destruct Hgrown as [Hsame|(t & Ht & -> & Hnew)].
    + left. split; [done|]. rewrite <- Hsame. unfold group_rows. by rewrite Egs.
    + right. by exists t.
  - cbn [fst snd].
    destruct Hres as [->| ->]; [by auto|].
    destruct (rows_advance GroupSt d) as (Hg & Hs & _).
    unfold group_rows. rewrite Hg, Hs. by auto.
Qed.

(** X2: a call of [add_student] with arguments of the types it is
    annotated with (a [str] or [None] as the group, a list of integers as
    the grade) on a database file that is there.  A call that returns has
    appended exactly one student row, with the next value of
    [student_st], the name and the list given, all of 32 bits; the row
    references the group found, the groups being as they were, or the one
    group row appended for it.  A call that raises leaves the students
    table as it was, though it may leave the group row it had already
    inserted. *)
Theorem add_student_outcome (p n : string) (v : pyval) (l : list Z)
    (w : world) (d : database) :
  files w !! p = Some d → (∀ z, v ≠ PyInt z) →
  ∃ d',
    files (add_student p n v (GradeList l) w).2 !! p = Some d' ∧
    let grown :=
      group_rows d' = group_rows d ∨
      (∃ t, v = PyStr t ∧
            group_rows d' =
              group_rows d ++ [{| group_id := next_value (group_st d);
                                  group_title := t |}]) in
    match (add_student p n v (GradeList l) w).1 with
    | Ok _ =>
        ∃ gid,
          forallb in_int32 l = true ∧
          student_rows d' =
            student_rows d ++
              [{| student_id := next_value (student_st d); student_name := n;
                  student_group_id := gid; student_grade := l |}] ∧
          ((group_rows d' = group_rows d ∧ gid ∈ group_id <$> group_rows d) ∨
           (∃ t, v = PyStr t ∧ gid = next_value (group_st d) ∧
                 group_rows d' =
                   group_rows d ++ [{| group_id := gid; group_title := t |}]))
    | Raise _ => students d' = students d ∧ grown
    end.
Proof.
  intros Hp Hv.
  assert (∀ t, bind_text v = Some t → v = PyStr t) as Hstr.
  { intros t. destruct v as [|z|s]; cbn; [done|by destruct (Hv z)|congruence]. }
  destruct (add_body_outcome p n v (GradeList l) w) as (d' & Hd' & H).
  exists d'. split; [done|]. rewrite Hp in H. cbn [default from_option id] in H.
  cbn zeta in *.
  destruct (add_student p n v (GradeList l) w).1 as [u|e].
  - destruct H as (gid & marks & Hmarks & Hss & Hgs). exists gid.
    cbn [int_list_of] in Hmarks.
    destruct (forallb in_int32 l); [|done]. simplify_eq.
    split; [done|]. split; [done|].
    destruct Hgs as [?|(t & Ht & ? & ?)]; [by left|right].
    exists t. by rewrite (Hstr t Ht).
  - destruct H as [Hss [?|(t & Ht & ?)]]; (split; [done|]); [by left|right].
    exists t. by rewrite (Hstr t Ht).
Qed.

Lemma add_student_outcome_witness :
  let w := (create_db "/home/students.db" initial_world).2 in
  let r := add_student "/home/students.db" "Ivanov I.I." (PyStr "IS-21")
             (GradeList [4; 5; 2 ^ 31]) w in
  r.1 = Raise ConversionException ∧
  ∃ d', files r.2 !! "/home/students.db" = Some d' ∧
        students d' = Some [] ∧
        group_rows d' = [{| group_id := 1; group_title := "IS-21" |}].
Proof.
  intros w r. split; [reflexivity|].
  destruct (add_student_outcome "/home/students.db" "Ivanov I.I." (PyStr "IS-21")
              [4; 5; 2 ^ 31] w (with_schema empty_database) eq_refl
              (λ z H, eq_ind (PyStr "IS-21")
                        (λ v, match v with PyStr _ => True | _ => False end)
                        I (PyInt z) H))
    as (d' & Hd' & _).
  exists d'. split; [exact Hd'|].
  vm_compute in Hd'. injection Hd' as <-. split; reflexivity.
Defined.

(** ** The queries and the schema *)

(** X3: a query never writes: on a file that exists, [select_all] and
    [select_by_grade], with any parameter, leave the world exactly as it
    was, whether they return or raise. *)
Theorem queries_read_only (p : string) (v : pyval) (w : world) (d : database) :
  files w !! p = Some d →
  (select_all p w).2 = w ∧ (select_by_grade p v w).2 = w.
Proof.
  intros Hp. split.
  - unfold select_all. rewrite with_connection_run, Hp. cbn [snd default from_option id].
    rewrite bind_run, select_join_run.
    destruct (students d), (groups d); cbn; by rewrite insert_id, world_eta.
  - unfold select_by_grade. rewrite with_connection_run, Hp.
    cbn [snd default from_option id]. rewrite bind_run.
    pose proof (select_join_where_state v d) as H.
    destruct (select_join_where v d) as [[rows|e] d']; cbn in *; subst;
      by rewrite insert_id, world_eta.
Qed.

Lemma queries_read_only_witness :
  let w := (main "/home" (Add None (Some "Ivanov I.I.") (Some "21") (Some "[4, 5, 5]"))
              initial_world).2 in
  (select_all "/home/students.db" w).2 = w ∧
  (select_by_grade "/home/students.db" (PyInt 5) w).2 = w.
Proof.
  intros w. eapply (queries_read_only "/home/students.db" (PyInt 5) w). reflexivity.
Defined.

(** X4: nothing works before the schema is there.  On a path whose file
    is missing or has no [groups] table, the two queries and
    [add_student] raise the engine's catalog error; the file is there
    afterwards (opening it creates it) and its database is what it was:
    no table, no row, no sequence value taken. *)
Theorem schema_comes_first (p n : string) (v : pyval) (m : grade_value)
    (w : world) :
  groups (default empty_database (files w !! p)) = None →
  let d := default empty_database (files w !! p) in
  (select_all p w).1 = Raise CatalogException ∧
  files (select_all p w).2 !! p = Some d ∧
  (select_by_grade p v w).1 = Raise CatalogException ∧
  files (select_by_grade p v w).2 !! p = Some d ∧
  (add_student p n v m w).1 = Raise CatalogException ∧
  files (add_student p n v m w).2 !! p = Some d.
Proof.
  intros Hg d. fold d in Hg.
  unfold select_all, select_by_grade, add_student.
  rewrite !with_connection_run. fold d. cbn [fst snd files].
  rewrite !lookup_insert_eq.
  assert ((rows ← select_join; mret (to_student <$> rows)) d
          = (Raise CatalogException, d)) as ->.
  { rewrite bind_run, select_join_run, Hg. by destruct (students d). }
  assert ((rows ← select_join_where v; mret (to_student <$> rows)) d
          = (Raise CatalogException, d)) as ->.
  { unfold select_join_where, table_students, table_groups.
    rewrite !bind_run. cbn [get]. destruct (students d); [|done].
    cbn [mret M_ret]. rewrite !bind_run. cbn [get]. by rewrite Hg. }
  assert ((group_id ← resolve_group v; insert_into_students n group_id m) d
          = (Raise CatalogException, d)) as ->.
  { by rewrite bind_run, resolve_group_run, Hg. }
  done.
Qed.

Lemma schema_comes_first_witness :
  (select_all "/home/students.db" initial_world).1 = Raise CatalogException ∧
  (add_student "/home/students.db" "Ivanov I.I." (PyStr "IS-21") (GradeList [4; 5; 5])
     initial_world).1 = Raise CatalogException ∧
  files (add_student "/home/students.db" "Ivanov I.I." (PyStr "IS-21")
           (GradeList [4; 5; 5]) initial_world).2 !! "/home/students.db"
    = Some empty_database.
Proof.
  destruct (schema_comes_first "/home/students.db" "Ivanov I.I." (PyStr "IS-21")
              (GradeList [4; 5; 5]) initial_world eq_refl)
    as (H1 & _ & _ & _ & H2 & H3).
  split; [exact H1|]. split; [exact H2|exact H3].
Defined.

(** X5: on a file that has its two sequences and two tables, [create_db]
    changes nothing: no sequence is reset and no table emptied, so that
    calling it at the start of every run is harmless. *)
Theorem create_db_keeps (p : string) (w : world) (d : database) :
  files w !! p = Some d → schema_exists d → create_db p w = (Ok tt, w).
Proof.
  intros Hp ([sg Esg] & [ss Ess] & [gs Egs] & [st Est]).
  rewrite create_db_run, Hp. cbn [default from_option id].
  assert (with_schema d = d) as ->.
  { unfold with_schema, group_rows, student_rows. rewrite Esg, Ess, Egs, Est.
    cbn. destruct d; by simplify_eq/=. }
  by rewrite insert_id, world_eta.
Qed.

Lemma create_db_keeps_witness :
  let w := (main "/home" (Add None (Some "Ivanov I.I.") (Some "21") (Some "[4, 5, 5]"))
              initial_world).2 in
  create_db "/home/students.db" w = (Ok tt, w).
Proof.
  intros w. eapply (create_db_keeps "/home/students.db" w); [reflexivity|].
  cbn. by repeat split.
Defined.

(** ** The two subcommands that print *)

Lemma display_students_lines (staff : list student) (w : world) :
  display_students staff w =
  (Ok tt, {| files := files w; stdout := stdout w ++ display_lines staff |}).
Proof.
  unfold display_lines. by rewrite !display_students_run.
Qed.

Lemma main_prints_run (cwd : string) (db : option string) (t : string)
    (w : world) :
  let p := default (default_db cwd) db in
  let d := with_schema (default empty_database (files w !! p)) in
  let roster := to_student <$> inner_join (student_rows d) (group_rows d) in
  main cwd (Display db) w =
    (Ok tt, {| files := <[p := d]> (files w);
               stdout := stdout w ++ display_lines roster |}) ∧
  main cwd (Select db (Some t)) w =
    (Ok tt, {| files := <[p := d]> (files w);
               stdout := stdout w ++
                         display_lines (filter (λ r, group r = t) roster) |}).
Proof.
  intros p d roster.
  assert (files (create_db p w).2 !! p = Some d) as Hp.
  { rewrite create_db_run. cbn. apply lookup_insert_eq. }
  assert (create_db p w = (Ok tt, {| files := <[p := d]> (files w);
                                     stdout := stdout w |})) as Hc
    by apply create_db_run.
  split.
  - rewrite main_display_run. fold p. rewrite bind_run, Hc, bind_run.
    rewrite (select_all_run p _ d (student_rows d) (group_rows d))
      by (done || by rewrite Hc in Hp).
    by rewrite display_students_lines.
  - rewrite main_select_run. fold p. rewrite bind_run, Hc, bind_run.
    rewrite (select_by_grade_str_run p _ d (student_rows d) (group_rows d))
      by (done || by rewrite Hc in Hp).
    by rewrite display_students_lines, inner_join_titled.
Qed.



(** X7: the width of a row, in code points: 13 for the bars and the
    spaces around them, and for each field its width or, if the text is
    longer, the length of the text.  The border and the head are 82 wide;
    a row is as wide exactly when the number, the name, the group and the
    grades fit in 4, 30, 20 and 15, and wider otherwise: a text that is
    too long is never cut. *)
Theorem table_row_width (idx : Z) (s : student) :
  py_len (table_row idx s) =
    (13 + (4 `max` py_len (py_str idx)) + (30 `max` py_len (name s))
        + (20 `max` py_len (group s))
        + (15 `max` py_len (py_join ", " (py_str <$> grade s))))%nat ∧
  py_len table_line = 82%nat ∧ py_len table_head = 82%nat.
Proof.
  split; [|split; reflexivity].
  unfold table_row. rewrite !py_len_app.
  destruct (py_format_right 4 (py_str idx)) as (? & _ & ->).
  destruct (py_format_left 30 (name s)) as (? & _ & ->).
  destruct (py_format_left 20 (group s)) as (? & _ & ->).
  destruct (py_format_right 15 (py_join ", " (py_str <$> grade s))) as (? & _ & ->).
  change (py_len "| ") with 2%nat. change (py_len " | ") with 3%nat.
  change (py_len " |") with 2%nat. lia.
Qed.

(** ** Usage errors *)

Lemma resolve_group_engine_exn (v : pyval) (d d' : database) e :
  resolve_group v d = (Raise e, d') → is_engine_exn e = true.
Proof.
  rewrite resolve_group_run. destruct (groups d) as [gs|] eqn:Egs;
    [|by intros ?; simplify_eq].
  destruct (where_title_sub v gs d) as (r & Hr & Hsub). rewrite Hr. cbn [fst].
  destruct r as [[|g rows]|e']; [|done|by intros ?; simplify_eq].
  destruct (insert_into_groups v d) as [[u|e1] d1] eqn:E.
  - apply insert_into_groups_ok in E as (s & gs' & t & Es & Egs' & _ & ->).
    by rewrite (currval_after_insert _ s).
  - intros ?; simplify_eq. revert E. rewrite insert_into_groups_run, Egs.
    destruct (group_st d) as [s|]; [|by intros ?; simplify_eq].
    destruct (counter s <? INT64_MAX); [|by intros ?; simplify_eq].
    destruct (in_int32 (counter s)); [|by intros ?; simplify_eq].
    destruct (bind_text v); [|by intros ?; simplify_eq].
    case_bool_decide; by intros ?; simplify_eq.
Qed.

Lemma add_body_engine_exn n v m (d : database) e :
  (add_body n v m d).1 = Raise e → is_engine_exn e = true.
Proof.
  unfold add_body. rewrite bind_run.
  destruct (resolve_group v d) as [[gid|e'] dg] eqn:E.
  - rewrite insert_into_students_run.
    destruct (students dg); [|by cbn; intros ?; simplify_eq].
    destruct (groups dg); [|by cbn; intros ?; simplify_eq].
    destruct (student_st dg) as [s|]; [|by cbn; intros ?; simplify_eq].
    destruct (counter s <? INT64_MAX); [|by cbn; intros ?; simplify_eq].
    destruct (in_int32 (counter s) && in_int32 gid); [|by cbn; intros ?; simplify_eq].
    destruct (int_list_of m); [|by cbn; intros ?; simplify_eq].
    repeat case_bool_decide; by cbn; intros ?; simplify_eq.
  - cbn. intros ?; simplify_eq. by eapply resolve_group_engine_exn.
Qed.

(** X8: exit status 2 means that nothing happened.  A run of [main] that
    ends in a usage error of the parser has opened no file, created no
    schema and printed nothing on the standard output: the world is as it
    was. *)
Theorem usage_error_touches_nothing (cwd : string) (argv : command_line)
    (w : world) :
  exit_status (main cwd argv w).1 = 2 → (main cwd argv w).2 = w.
Proof.
  destruct argv as [| |db n g m|db|db [sel|]]; try done.
  - rewrite main_add_run.
    assert (∀ v, exit_status
               (match n, m with
                | Some n', Some m' =>
                    (create_db (default (default_db cwd) db);;
                     add_student (default (default_db cwd) db) n' v (GradeStr m')) w
                | _, _ =>
                    (Raise (ParserError (RequiredMissing
                       (missing "-n/--name" n ++ missing "-gr/--grade" m))), w)
                end).1 = 2 →
              (match n, m with
               | Some n', Some m' =>
                   (create_db (default (default_db cwd) db);;
                    add_student (default (default_db cwd) db) n' v (GradeStr m')) w
               | _, _ =>
                   (Raise (ParserError (RequiredMissing
                      (missing "-n/--name" n ++ missing "-gr/--grade" m))), w)
               end).2 = w) as Hv.
    { intros v. destruct n as [n'|], m as [m'|]; try done.
      rewrite bind_run, create_db_run. unfold add_student.
      rewrite with_connection_run. cbn [fst snd].
      pose proof (add_body_engine_exn n' v (GradeStr m')) as He.
      unfold add_body in He.
      match goal with |- context [(?b ?d).1] => specialize (He d); destruct (b d) as [[u|e] d'] end;
        [done|]. cbn in *. specialize (He e eq_refl). by destruct e. }
    destruct g as [text|]; [destruct (py_int text)|]; cbn; [apply Hv|done|apply Hv].
  - by destruct (main_prints_run cwd db "" w) as [-> _].
  - by destruct (main_prints_run cwd db sel w) as [_ ->].
Qed.

Lemma usage_error_touches_nothing_witness :
  let r := main "/home" (Add (Some "roster.db") None (Some "21") (Some "[5]"))
                initial_world in
  exit_status r.1 = 2 ∧ r.2 = initial_world.
Proof.
  intros r. split; [reflexivity|].
  exact (usage_error_touches_nothing "/home"
           (Add (Some "roster.db") None (Some "21") (Some "[5]")) initial_world eq_refl).
Defined.

(** ** Integers as titles *)

Lemma append_nil_r (a : string) : a +:+ "" = a.
Proof.
  induction a as [|c a IH]; [done|].
  change (String c a +:+ "") with (String c (a +:+ "")). by rewrite IH.
Qed.

Lemma rev_app_rev_app (a b c : string) :
  String.rev_app (String.rev_app a b) c = String.rev_app b (a +:+ c).
Proof.
  revert b c. induction a as [|x a IH]; intros b c; [done|].
  cbn [String.rev_app]. by rewrite IH.
Qed.

Lemma rev_rev (a : string) : String.rev (String.rev a) = a.
Proof. unfold String.rev. by rewrite rev_app_rev_app, append_nil_r. Qed.

Lemma no_space_rev_app (a b : string) :
  no_space (String.rev_app a b) = no_space a && no_space b.
Proof.
  revert b. induction a as [|x a IH]; intros b; [done|].
  cbn [String.rev_app no_space]. rewrite IH. cbn [no_space].
  by destruct (py_isspace x), (no_space a), (no_space b).
Qed.

Lemma lstrip_no_space (a : string) : no_space a = true → lstrip a = a.
Proof.
  destruct a as [|c a]; [done|]. cbn [no_space lstrip].
  by destruct (py_isspace c).
Qed.

Lemma strip_no_space (a : string) : no_space a = true → strip a = a.
Proof.
  intros Ha. unfold strip. rewrite (lstrip_no_space a Ha).
  rewrite lstrip_no_space; [apply rev_rev|].
  unfold String.rev. by rewrite no_space_rev_app, Ha.
Qed.

Lemma digit_of_char (y : N) :
  (y < 10)%N →
  digit_value (pretty_N_char y) = Some (Z.of_N y) ∧
  py_isspace (pretty_N_char y) = false.
Proof.
  intros Hy.
  assert (y = 0 ∨ y = 1 ∨ y = 2 ∨ y = 3 ∨ y = 4 ∨ y = 5 ∨ y = 6 ∨ y = 7
          ∨ y = 8 ∨ y = 9)%N as Hcases by lia.
  by repeat (destruct Hcases as [->|Hcases]); [..|subst y].
Qed.

Lemma no_space_pretty_N_go (x : N) (s : string) :
  no_space (pretty_N_go x s) = no_space s.
Proof.
  revert s. induction (N.lt_wf_0 x) as [x _ IH]; intros s.
  destruct (decide (x = 0)%N) as [->|Hx]; [done|].
  rewrite pretty_N_go_step by lia. rewrite IH by (apply N.div_lt; lia).
  cbn [no_space].
  destruct (digit_of_char (x `mod` 10)) as [_ ->]; [|done].
  by apply N.mod_lt.
Qed.

Lemma decimal_value_pretty_N_go (x : N) (s : string) (b : bool) :
  decimal_value 0 b (pretty_N_go x s) =
  decimal_value (Z.of_N x) (b || bool_decide (0 < x)%N) s.
Proof.
  revert s b. induction (N.lt_wf_0 x) as [x _ IH]; intros s b.
  destruct (decide (x = 0)%N) as [->|Hx].
  { rewrite pretty_N_go_0. by rewrite orb_false_r. }
  rewrite pretty_N_go_step by lia. rewrite IH by (apply N.div_lt; lia).
  cbn [decimal_value].
  destruct (digit_of_char (x `mod` 10)) as [-> _]; [by apply N.mod_lt|].
  rewrite (bool_decide_eq_true_2 (0 < x)%N) by lia. rewrite orb_true_r.
  f_equal. pose proof (N.div_mod x 10). lia.
Qed.

(** The text the engine writes for an integer is read back as that
    integer. *)
Lemma text_to_integer_pretty (z : Z) : text_to_integer (pretty z) = Some z.
Proof.
  destruct z as [|q|q].
  - reflexivity.
  - change (pretty (Z.pos q)) with (pretty_N_go (N.pos q) "").
    unfold text_to_integer.
    rewrite strip_no_space by by rewrite no_space_pretty_N_go.
    pose proof (decimal_value_pretty_N_go (N.pos q) "" false) as Hv.
    pose proof (pretty_N_go_ne_dash (N.pos q) "") as Hd.
    destruct (pretty_N_go (N.pos q) "") as [|c r]; [done|].
    destruct c as [[] [] [] [] [] [] [] []]; try exact Hv.
    + by vm_compute in Hv.
    + by destruct (Hd r).
  - change (pretty (Z.neg q)) with (String "-" (pretty_N_go (N.pos q) "")).
    unfold text_to_integer.
    rewrite strip_no_space
      by (cbn [no_space]; by rewrite no_space_pretty_N_go).
    by rewrite (decimal_value_pretty_N_go (N.pos q) "" false).
Qed.

Lemma cast_text_pretty (t : int_type) (z : Z) :
  cast_text t (pretty z) = if in_type t z then Some z else None.
Proof. unfold cast_text. by rewrite text_to_integer_pretty. Qed.

(** Among titles that are decimal texts of integers of the type of the
    parameter, the rows found are those titled with its decimal text. *)
Lemma where_title_int_canonical (z : Z) (gs : list group_row) (d : database) :
  comparable z gs →
  where_title (PyInt z) gs d = (Ok (titled (pretty z) gs), d).
Proof.
  induction 1 as [|g gs (z' & Hz' & Hfit) _ IH]; [done|].
  cbn [where_title]. rewrite bind_run. cbn [title_equals].
  rewrite Hz', cast_text_pretty, Hfit. cbn [mret M_ret].
  rewrite bind_run, IH. unfold titled. rewrite filter_cons, Hz'.
  cbn [mret M_ret]. case_bool_decide as Hb; case_decide as Hd; try done.
  - by subst.
  - by apply (inj pretty) in Hd.
Qed.


(** When the lookup finds no row, no row has the title that is about to
    be written. *)
Lemma where_title_fresh (v : pyval) (gs : list group_row) (d : database) t :
  (where_title v gs d).1 = Ok [] → bind_text v = Some t →
  t ∉ group_title <$> gs.
Proof.
  destruct v as [|z|s]; [done| |].
  - intros Hw [= <-]. revert Hw. induction gs as [|g gs IH]; [by intros _ ?%elem_of_nil|].
    cbn [where_title]. rewrite bind_run. cbn [title_equals].
    destruct (cast_text (type_of_int z) (group_title g)) as [t'|] eqn:Et; [|done].
    cbn [mret M_ret]. rewrite bind_run.
    destruct (where_title_sub (PyInt z) gs d) as (r & Hr & _). rewrite Hr in *.
    destruct r as [rest|e]; [|done]. cbn [mret M_ret fst] in *.
    case_bool_decide as Hb; [done|]. intros ?; simplify_eq.
    rewrite fmap_cons, not_elem_of_cons. split; [|by apply IH].
    intros Heq. rewrite <- Heq, cast_text_pretty in Et.
    destruct (in_type (type_of_int z) z); by simplify_eq.
  - intros Hw [= <-]. rewrite where_title_str in Hw. cbn in Hw.
    intros (g & Hg & Hin)%list_elem_of_fmap.
    assert (g ∈ titled s gs) as Hin' by (by apply list_elem_of_filter).
    injection Hw as Hw. rewrite Hw in Hin'. by apply elem_of_nil in Hin'.
Qed.

(** ** The keys of the tables *)

Lemma keys_distinct_rows (d d' : database) :
  group_rows d' = group_rows d → student_rows d' = student_rows d →
  keys_distinct d → keys_distinct d'.
Proof. unfold keys_distinct. by intros -> ->. Qed.

Lemma rows_of_advance (n : sequence_name) (d : database) :
  group_rows (advance n d) = group_rows d ∧
  student_rows (advance n d) = student_rows d.
Proof.
  destruct (rows_advance n d) as (Hg & Hs & _).
  unfold group_rows, student_rows. by rewrite Hg, Hs.
Qed.

Lemma add_body_keys n v m (d : database) :
  keys_inv d → keys_inv (add_body n v m d).2.
Proof.
  intros [Hinv [Hsid Htitle]]. split; [by apply add_student_body_inv|].
  destruct (add_body_cases n v m d) as (dg & Hg & Hs).
  assert (keys_distinct dg) as Hdg.
  { destruct Hg as [->|[->|(gs & s & t & Egs & Es & Ht & Hw & _ & _ & ->)]];
      [done| |].
    - destruct (rows_of_advance GroupSt d) as [Hg Hs'].
      by apply (keys_distinct_rows d).
    - destruct (rows_of_advance GroupSt d) as [_ Hs'].
      split.
      + unfold student_rows in *. cbn. by destruct (rows_advance GroupSt d) as (_ & -> & _).
      + unfold group_rows in *. cbn. rewrite Egs in Htitle. cbn in Htitle.
        rewrite fmap_app. apply NoDup_app. split_and!; [done| |apply NoDup_singleton].
        intros x Hx ->%list_elem_of_singleton.
        by apply (where_title_fresh v gs d t). }
  destruct Hs as [(e & _ & [->| ->])|(_ & ss & s & gid & marks & Ess & Es & _ & _ & _ & Hfresh & ->)];
    [done| |].
  - destruct (rows_of_advance StudentSt dg) as [Hg' Hs'].
    by apply (keys_distinct_rows dg).
  - destruct Hdg as [Hsid' Htitle']. split.
    + unfold student_rows in *. cbn. rewrite Ess in Hsid'. cbn in Hsid'.
      rewrite fmap_app. apply NoDup_app. split_and!; [done| |apply NoDup_singleton].
      by intros x Hx ->%list_elem_of_singleton.
    + unfold group_rows in *. cbn. by destruct (rows_advance StudentSt dg) as (-> & _).
Qed.

Lemma add_body_canonical n v m (d : database) :
  (∀ s, v ≠ PyStr s) → canonical d → canonical (add_body n v m d).2.
Proof.
  intros Hv Hcan. unfold canonical in *.
  destruct (add_body_cases n v m d) as (dg & Hg & Hs).
  assert (Forall (λ g, ∃ z : Z, group_title g = pretty z) (group_rows dg)) as Hdg.
  { destruct Hg as [->|[->|(gs & s & t & Egs & Es & Ht & _ & _ & _ & ->)]];
      [done| |].
    - by destruct (rows_of_advance GroupSt d) as [-> _].
    - unfold group_rows in *. cbn. rewrite Egs in Hcan. cbn in Hcan.
      apply Forall_app. split; [done|]. apply Forall_singleton. cbn.
      destruct v as [|z|s0]; [done| |by destruct (Hv s0)].
      exists z. cbn in Ht. by simplify_eq. }
  destruct Hs as [(e & _ & [->| ->])|(_ & ss & s & gid & marks & _ & _ & _ & _ & _ & _ & ->)];
    [done| |].
  - by destruct (rows_of_advance StudentSt dg) as [-> _].
  - change (group_rows (set_students _ (advance StudentSt dg)))
      with (group_rows (advance StudentSt dg)).
    by destruct (rows_of_advance StudentSt dg) as [-> _].
Qed.

(** ** Properties of every file along a run *)

Lemma files_inv_refl (P : database → Prop) :
  Reflexive (λ w w', files_inv P w → files_inv P w').
Proof. by intros w. Qed.

Lemma files_inv_trans (P : database → Prop) :
  Transitive (λ w w', files_inv P w → files_inv P w').
Proof. intros a b c Hab Hbc Ha. auto. Qed.

Lemma with_connection_files_inv {A} (P : database → Prop) (p : string)
    (body : Db A) :
  P empty_database → (∀ d, P d → P (body d).2) →
  advances (λ w w', files_inv P w → files_inv P w') (with_connection p body).
Proof.
  intros Hempty Hbody w Hw q d. rewrite with_connection_run. cbn [snd files].
  rewrite lookup_insert. case_decide; [|by apply Hw].
  intros ?; simplify_eq. apply Hbody.
  destruct (files w !! q) as [d|] eqn:E; [by eapply Hw|done].
Qed.

Lemma queries_files_inv (P : database → Prop) :
  P empty_database →
  (∀ p, advances (λ w w', files_inv P w → files_inv P w') (select_all p)) ∧
  (∀ p v, advances (λ w w', files_inv P w → files_inv P w') (select_by_grade p v)).
Proof.
  intros Hempty. split.
  - intros p. apply with_connection_files_inv; [done|]. intros d Hd.
    rewrite bind_run, select_join_run. by destruct (students d), (groups d).
  - intros p v. apply with_connection_files_inv; [done|]. intros d Hd.
    rewrite bind_run. pose proof (select_join_where_state v d) as H.
    destruct (select_join_where v d) as [[rows|e] d']; cbn in *; by subst.
Qed.

Lemma create_db_files_inv (P : database → Prop) p :
  P empty_database → (∀ d, P d → P (with_schema d)) →
  advances (λ w w', files_inv P w → files_inv P w') (create_db p).
Proof.
  intros Hempty Hschema. apply with_connection_files_inv; [done|].
  intros d Hd. rewrite create_db_body_run. by apply Hschema.
Qed.

Lemma keys_inv_with_schema (d : database) : keys_inv d → keys_inv (with_schema d).
Proof. intros [Hinv Hkeys]. split; [by apply db_inv_with_schema|done]. Qed.

Lemma keys_inv_empty : keys_inv empty_database.
Proof. split; [apply db_inv_empty|]. split; constructor. Qed.

Lemma reachable_keys (w : world) : reachable w → files_inv keys_inv w.
Proof.
  intros [cs <-].
  assert (files_inv keys_inv initial_world) as H0
    by (intros p d; cbn; by rewrite lookup_empty).
  revert H0. generalize initial_world.
  induction cs as [|c cs IH]; intros w Hw; [done|].
  cbn. apply IH. revert Hw.
  destruct (queries_files_inv keys_inv keys_inv_empty) as [Hall Hsel].
  apply (run_call_advances (λ w w', files_inv keys_inv w → files_inv keys_inv w')
           (Reflexive0 := files_inv_refl _) (Transitive0 := files_inv_trans _));
    try done.
  - by intros text w'.
  - intros p. apply create_db_files_inv;
      [apply keys_inv_empty|apply keys_inv_with_schema].
  - intros p n v m. apply with_connection_files_inv; [apply keys_inv_empty|].
    intros d. apply add_body_keys.
Qed.

(** X9: in every world reached by calls of the program, in every file,
    no two student rows have the same identifier, no two group rows have
    the same identifier, and no two group rows have the same title: the
    lookup before the insert keeps the titles unique, though the schema
    declares no constraint on them. *)
Theorem keys_stay_distinct (w : world) (p : string) (d : database) :
  reachable w → files w !! p = Some d →
  NoDup (student_id <$> student_rows d) ∧
  NoDup (group_id <$> group_rows d) ∧
  NoDup (group_title <$> group_rows d).
Proof.
  intros Hreach Hp.
  destruct (reachable_keys w Hreach p d Hp) as [(_ & _ & Hgid & _) [Hsid Htitle]].
  done.
Qed.

Lemma keys_stay_distinct_witness :
  let w := run_calls
             [CallMain "/home" (Add None (Some "Ivanov I.I.") (Some "21") (Some "[4, 5, 5]"));
              CallAddStudent "/home/students.db" "Petrov P.P." (PyStr "21") (GradeList [3]);
              CallAddStudent "/home/students.db" "Sidorov S.S." (PyStr "IS-21") (GradeList [])]
             initial_world in
  ∃ d, files w !! "/home/students.db" = Some d ∧
       group_title <$> group_rows d = ["21"; "IS-21"] ∧
       NoDup (student_id <$> student_rows d) ∧
       NoDup (group_id <$> group_rows d) ∧
       NoDup (group_title <$> group_rows d).
Proof.
  intros w. eexists. split; [reflexivity|]. split; [reflexivity|].
  apply (keys_stay_distinct w "/home/students.db"); [by eexists|reflexivity].
Defined.

(** ** Runs from the command line *)

Lemma cli_reachable_reachable (w : world) : cli_reachable w → reachable w.
Proof.
  intros [runs <-]. exists ((λ r, CallMain r.1 r.2) <$> runs).
  generalize initial_world. induction runs as [|r runs IH]; intros w; [done|].
  cbn. apply IH.
Qed.

Lemma canonical_empty : canonical empty_database.
Proof. constructor. Qed.

Lemma cli_reachable_canonical (w : world) :
  cli_reachable w → files_inv canonical w.
Proof.
  intros [runs <-].
  assert (files_inv canonical initial_world) as H0
    by (intros p d; cbn; by rewrite lookup_empty).
  revert H0. generalize initial_world.
  induction runs as [|r runs IH]; intros w Hw; [done|].
  cbn. apply IH. revert Hw.
  destruct (queries_files_inv canonical canonical_empty) as [Hall Hsel].
  apply (main_advances (λ w w', files_inv canonical w → files_inv canonical w')
           (Reflexive0 := files_inv_refl _) (Transitive0 := files_inv_trans _));
    try done.
  - by intros text w'.
  - intros p. apply create_db_files_inv; [apply canonical_empty|by intros d].
  - intros p n v m Hv. apply with_connection_files_inv; [apply canonical_empty|].
    intros d. by apply add_body_canonical.
Qed.

(** In a file written from the command line only, an integer can be
    compared with the titles as soon as the integers on file are of its
    type. *)
Lemma cli_reachable_comparable (w : world) (p : string) (d : database) (z : Z) :
  cli_reachable w → files w !! p = Some d →
  Forall (λ g, ∀ z' : Z, group_title g = pretty z' →
                         in_type (type_of_int z) z' = true) (group_rows d) →
  comparable z (group_rows d).
Proof.
  intros Hcli Hp Hfit. pose proof (cli_reachable_canonical w Hcli p d Hp) as Hcan.
  unfold canonical, comparable in *. rewrite Forall_forall in *.
  intros g Hg. destruct (Hcan g Hg) as [z' Hz']. exists z'. eauto.
Qed.

(** Among titles it can be compared with, the integer is looked up and
    written as its decimal text. *)
Lemma resolve_group_int (z : Z) (d : database) :
  comparable z (group_rows d) →
  resolve_group (PyInt z) d = resolve_group (PyStr (pretty z)) d.
Proof.
  intros Hcan. rewrite !resolve_group_run.
  destruct (groups d) as [gs|] eqn:Egs; [|done].
  unfold group_rows in Hcan. rewrite Egs in Hcan. cbn in Hcan.
  rewrite where_title_int_canonical, where_title_str by done.
  by rewrite !insert_into_groups_run.
Qed.

Lemma add_student_int (p n : string) (z : Z) (m : grade_value) (w : world)
    (d : database) :
  files w !! p = Some d → comparable z (group_rows d) →
  add_student p n (PyInt z) m w = add_student p n (PyStr (pretty z)) m w.
Proof.
  intros Hp Hcan. unfold add_student. rewrite !with_connection_run, Hp.
  cbn [default from_option id].
  by rewrite !bind_run, (resolve_group_int z d Hcan).
Qed.

Lemma add_run_on_file (cwd : string) (db : option string) (n g m : string)
    (z : Z) (marks : list Z) (w : world) (d0 : database) :
  let p := default (default_db cwd) db in
  reachable w → files w !! p = Some d0 →
  py_int g = Some z → comparable z (group_rows d0) →
  int_list_of (GradeStr m) = Some marks →
  let d := with_schema d0 in
  room 1 (group_st d) → room 1 (student_st d) →
  ∃ w' after,
    main cwd (Add db (Some n) (Some g) (Some m)) w = (Ok tt, w') ∧
    select_all p w' = (Ok after, w') ∧
    after ≡ₚ {| name := n; group := py_str z; grade := marks |}
             :: (to_student <$> inner_join (student_rows d) (group_rows d)).
Proof.
  intros p Hreach Hp0 Hg Hcan Hm d Hgroom Hroom.
  destruct (reachable_create_db_ok p w Hreach) as (d1 & Hp1 & Hok).
  assert (d1 = d) as ->.
  { rewrite create_db_run in Hp1. cbn in Hp1. rewrite lookup_insert_eq, Hp0 in Hp1.
    by simplify_eq. }
  destruct (with_student_ok n (pretty z) marks d Hok (λ _, Hgroom) Hroom)
    as [Hok' _].
  destruct (db_ok_tables _ Hok') as [Ess' Egs'].
  exists {| files := <[p := with_student n (pretty z) marks d]>
                        (files (create_db p w).2);
            stdout := stdout (create_db p w).2 |},
         (to_student <$> inner_join
            (student_rows (with_student n (pretty z) marks d))
            (group_rows (with_student n (pretty z) marks d))).
  split_and!.
  - rewrite main_add_run, Hg. cbn [fmap option_fmap option_map]. fold p.
    rewrite bind_run.
    assert (create_db p w = (Ok tt, (create_db p w).2)) as ->
      by (by rewrite create_db_run).
    rewrite (add_student_int p n z (GradeStr m) _ d) by done.
    by apply (add_student_str_run p _ d n (pretty z) (GradeStr m) marks).
  - eapply select_all_run; [|done..]. cbn. apply lookup_insert_eq.
  - rewrite inner_join_with_student by done.
    rewrite fmap_app. cbn. by rewrite <- Permutation_cons_append.
Qed.

(** X10: the subcommand [add] from end to end, on a database file that
    earlier calls of the program left.  The [--group] is a plain text that
    [int] accepts, as an integer [z] of at most 64 bits; the titles on
    file are decimal texts of integers of the type the engine gives [z]
    (INTEGER or BIGINT); the [--grade] is a text in the syntax of a list
    of decimal integers; each sequence has an identifier left.  Then the
    run returns normally, and [select_all] afterwards returns the records
    of before and one more: the name, the decimal text of [z] as the
    group, the list as the grade. *)
Theorem main_add_cli (cwd : string) (db : option string) (n g m : string)
    (z : Z) (marks : list Z) (w : world) (d0 : database) :
  let p := default (default_db cwd) db in
  reachable w → files w !! p = Some d0 → file_name p = true →
  plain_text g = true → py_int g = Some z → in_int64 z = true →
  comparable z (group_rows d0) →
  int_list_of (GradeStr m) = Some marks →
  let d := with_schema d0 in
  room 1 (group_st d) → room 1 (student_st d) →
  ∃ w' after,
    main cwd (Add db (Some n) (Some g) (Some m)) w = (Ok tt, w') ∧
    select_all p w' = (Ok after, w') ∧
    after ≡ₚ {| name := n; group := py_str z; grade := marks |}
             :: (to_student <$> inner_join (student_rows d) (group_rows d)).
Proof.
  intros p Hreach Hp _ _ Hg _ Hcan Hm. by apply add_run_on_file.
Qed.

Lemma main_add_cli_witness :
  let w := run_calls
             [CallMain "/home"
                (Add None (Some "Ivanov I.I.") (Some "21") (Some "[4, 5, 5]"))]
             initial_world in
  ∃ w' after,
    main "/home" (Add None (Some "Petrov P.P.") (Some "+2_1 ") (Some "[3, 4]")) w
      = (Ok tt, w') ∧
    select_all "/home/students.db" w' = (Ok after, w') ∧
    after ≡ₚ [{| name := "Petrov P.P."; group := "21"; grade := [3; 4] |};
              {| name := "Ivanov I.I."; group := "21"; grade := [4; 5; 5] |}].
Proof.
  intros w.
  apply (main_add_cli "/home" None "Petrov P.P." "+2_1 " "[3, 4]" 21 [3; 4] w
           {| group_st := Some {| counter := 2; last_value := Some 1 |};
              student_st := Some {| counter := 2; last_value := Some 1 |};
              groups := Some [{| group_id := 1; group_title := "21" |}];
              students :=
                Some [{| student_id := 1; student_name := "Ivanov I.I.";
                         student_group_id := 1; student_grade := [4; 5; 5] |}] |}).
  - by eexists.
  - reflexivity.
  - reflexivity.
  - reflexivity.
  - reflexivity.
  - reflexivity.
  - repeat constructor. by exists 21.
  - reflexivity.
  - by vm_compute.
  - by vm_compute.
Defined.

(** ** Constraint errors *)

Lemma add_body_constraint n v m (d : database) c :
  db_inv d → (add_body n v m d).1 = Raise (ConstraintException c) →
  c = NotNull ∧ v = PyNone.
Proof.
  intros Hinv. unfold add_body. rewrite bind_run.
  pose proof (resolve_group_inv v d Hinv) as Hinv'.
  pose proof (resolve_group_in v d) as Hin.
  destruct (resolve_group v d) as [[gid|e] dg] eqn:E.
  - specialize (Hin dg gid eq_refl). cbn [snd] in Hinv'.
    rewrite insert_into_students_run.
    destruct (students dg) as [ss|] eqn:Ess; [|done].
    destruct (groups dg) as [gs|] eqn:Egs; [|done].
    destruct (student_st dg) as [s|] eqn:Es; [|done].
    destruct (counter s <? INT64_MAX); [|done].
    destruct (in_int32 (counter s) && in_int32 gid); [|done].
    destruct (int_list_of m); [|done].
    destruct Hinv' as (_ & Hs & _). unfold student_rows in Hs.
    rewrite Ess, Es in Hs. cbn in Hs.
    rewrite bool_decide_eq_false_2 by by apply ids_below_not_in.
    unfold group_rows in Hin. rewrite Egs in Hin. cbn in Hin.
    by rewrite bool_decide_eq_true_2.
  - cbn [fst]. intros ?; simplify_eq. revert E. rewrite resolve_group_run.
    destruct (groups d) as [gs|] eqn:Egs; [|done].
    destruct (where_title_sub v gs d) as (r & Hr & Hsub). rewrite Hr. cbn [fst].
    destruct r as [[|g rows]|e']; [|done|by intros ?; simplify_eq].
    rewrite insert_into_groups_run, Egs.
    destruct (group_st d) as [s|] eqn:Es; [|done].
    destruct (counter s <? INT64_MAX); [|done].
    destruct (in_int32 (counter s)); [|done].
    destruct Hinv as (Hg & _). unfold group_rows in Hg.
    rewrite Egs, Es in Hg. cbn in Hg.
    destruct (bind_text v) as [t|] eqn:Et.
    + rewrite bool_decide_eq_false_2 by by apply ids_below_not_in.
      by rewrite (currval_after_insert _ s).
    + intros ?; simplify_eq. split; [done|]. by destruct v.
Qed.

(** X11: the sequences keep the keys apart.  In a world reached by calls
    of the program, [add_student] never fails on a primary key, whatever
    its arguments: the only constraint it can violate is the NOT NULL of
    the group title, and only when it is called with [None] as the
    group. *)
Theorem add_student_constraint (w : world) (p n : string) (v : pyval)
    (m : grade_value) (c : constraint) :
  reachable w →
  (add_student p n v m w).1 = Raise (ConstraintException c) →
  c = NotNull ∧ v = PyNone.
Proof.
  intros Hreach. unfold add_student. rewrite with_connection_run. cbn [fst].
  apply add_body_constraint.
  destruct (files w !! p) as [d|] eqn:E; [|apply db_inv_empty].
  by apply (reachable_inv w Hreach p d).
Qed.

Lemma add_student_constraint_witness :
  let w := (create_db "/home/students.db" initial_world).2 in
  (add_student "/home/students.db" "Ivanov I.I." PyNone (GradeList [5]) w).1
    = Raise (ConstraintException NotNull) ∧
  reachable w.
Proof.
  intros w.
  assert (reachable w) as Hreach by (exists [CallCreateDb "/home/students.db"]; reflexivity).
  split; [|exact Hreach].
  destruct (add_student_constraint w "/home/students.db" "Ivanov I.I." PyNone
              (GradeList [5]) NotNull Hreach eq_refl) as [_ _].
  reflexivity.
Defined.

(** X12: without a group there is no student.  Called with [None] as
    the group, [add_student] raises on every file and with every name
    and grade, and the rows of both tables are afterwards what they
    were. *)
Theorem add_student_none (p n : string) (m : grade_value) (w : world) :
  ∃ e d',
    (add_student p n PyNone m w).1 = Raise e ∧
    files (add_student p n PyNone m w).2 !! p = Some d' ∧
    group_rows d' = group_rows (default empty_database (files w !! p)) ∧
    student_rows d' = student_rows (default empty_database (files w !! p)).
Proof.
  unfold add_student. rewrite with_connection_run. cbn [fst snd files].
  rewrite lookup_insert_eq.
  set (d := default empty_database (files w !! p)).
  rewrite bind_run, resolve_group_run.
  destruct (groups d) as [gs|] eqn:Egs; [|by eexists _, _].
  rewrite where_title_none. cbn [fst].
  rewrite insert_into_groups_run, Egs.
  destruct (group_st d) as [s|] eqn:Es; [|by eexists _, _].
  destruct (rows_of_advance GroupSt d) as [Hg Hs].
  destruct (counter s <? INT64_MAX); [|by eexists _, _].
  destruct (in_int32 (counter s)); cbn [bind_text]; by eexists _, _.
Qed.

(** ** The command line of [add] *)










(** The run of [add] with the title of a group as [--group], and the
    lookup of a number among titles that are no numbers. *)
Example title_as_group :
  main "/home" (Add None (Some "Ivanov I.I.") (Some "IS-21") (Some "[4, 5, 5]"))
       initial_world =
    (Raise (ParserError (InvalidIntValue "-g/--group" "IS-21")), initial_world) ∧
  (let d := {| group_st := None; student_st := None;
               groups := Some [{| group_id := 1; group_title := "IS-21" |}];
               students := None |} in
   select_group_id (PyInt 21) d = (Raise ConversionException, d)).
Proof. split; reflexivity. Qed.
